(** * Verification of [cleanup.py]: extraction and resolution of event constants

    The development embeds the functions of
    [part-8/8-2 - Send an Event/eventNames/cleanup.py] and proves the
    properties of the specification about them.

    Conventions of the embedding.
    - A Python [str] is a Rocq [string]; a character is the code point with
      the number [N_of_ascii c], so the model covers the code points
      U+0000..U+00FF.  The character classes below are Python's on that range.
    - Python's unbounded [int] is [Z].
    - The [symbols] dictionary is a [gmap string Z].
    - A raised [ValueError] is [None]; no other exception can be raised by the
      modelled functions on strings. *)

From Stdlib Require Import ZArith Ascii String List Lia Permutation.
From stdpp Require Import base option list strings gmap fin_maps.

Local Open Scope string_scope.
Local Open Scope Z_scope.
Local Open Scope list_scope.

(** ** Characters *)

Module Char.

Definition code (c : ascii) : N := N_of_ascii c.

(** [str.isspace] on one character; also the class [\s] of [re] and the
    separators of [str.strip()] and [str.split(None)]. *)
Definition isspace (c : ascii) : bool :=
  let n := code c in
  ((9 <=? n) && (n <=? 13) || (28 <=? n) && (n <=? 32) || (n =? 133) || (n =? 160))%N.

(** The class [\d] of [re] (Unicode decimal digits; on this range [0-9]). *)
Definition isdecimal (c : ascii) : bool :=
  let n := code c in ((48 <=? n) && (n <=? 57))%N.

(** [str.isdigit] on one character: the decimal digits and the superscript
    digits U+00B2, U+00B3, U+00B9. *)
Definition isdigit (c : ascii) : bool :=
  let n := code c in
  (isdecimal c || (n =? 178) || (n =? 179) || (n =? 185))%N.

(** The class [[0-9a-fA-F]]. *)
Definition ishex (c : ascii) : bool :=
  let n := code c in
  (isdecimal c || (97 <=? n) && (n <=? 102) || (65 <=? n) && (n <=? 70))%N.

(** The class [[^+\-]]. *)
Definition not_plus_minus (c : ascii) : bool :=
  let n := code c in negb ((n =? 43) || (n =? 45))%N.

(** The class [.] (no DOTALL flag): anything but a line feed. *)
Definition not_newline (c : ascii) : bool := negb (code c =? 10)%N.

(** Value of a character as a digit of [int(s, base)]: [0-9], then letters of
    either case from 10 on. *)
Definition digit_value (c : ascii) : option Z :=
  let n := code c in
  if isdecimal c then Some (Z.of_N n - 48)
  else if ((97 <=? n) && (n <=? 122))%N then Some (Z.of_N n - 87)
  else if ((65 <=? n) && (n <=? 90))%N then Some (Z.of_N n - 55)
  else None.

End Char.

(** ** Methods of [str] *)

Module Str.

Fixpoint lstrip (s : string) : string :=
  match s with
  | String c s' => if Char.isspace c then lstrip s' else s
  | EmptyString => EmptyString
  end.

Fixpoint rstrip (s : string) : string :=
  match s with
  | String c s' =>
      match rstrip s' with
      | EmptyString => if Char.isspace c then EmptyString else String c EmptyString
      | r => String c r
      end
  | EmptyString => EmptyString
  end.

(** [s.strip()] *)
Definition strip (s : string) : string := rstrip (lstrip s).

(** [s.startswith(p)] *)
Fixpoint startswith (s p : string) {struct p} : bool :=
  match p, s with
  | EmptyString, _ => true
  | String a p', String b s' => if Ascii.eqb a b then startswith s' p' else false
  | String _ _, EmptyString => false
  end.

Fixpoint all_chars (p : ascii -> bool) (s : string) : bool :=
  match s with
  | String c s' => p c && all_chars p s'
  | EmptyString => true
  end.

(** [s.isdigit()]: at least one character, all of them digits. *)
Definition isdigit (s : string) : bool :=
  match s with
  | EmptyString => false
  | _ => all_chars Char.isdigit s
  end.

(** The first run of non-space characters of [s], and what follows it. *)
Fixpoint break_space (s : string) : string * string :=
  match s with
  | String c s' =>
      if Char.isspace c then (EmptyString, s)
      else let '(tok, rest) := break_space s' in (String c tok, rest)
  | EmptyString => (EmptyString, EmptyString)
  end.

(** [s.split(None, maxsplit)]: at most [maxsplit] fields are cut at runs of
    whitespace; what remains, without its leading whitespace, is the last
    item when it is not empty. *)
Fixpoint split (maxsplit : nat) (s : string) : list string :=
  let s := lstrip s in
  match s with
  | EmptyString => []
  | _ =>
      match maxsplit with
      | O => [s]
      | S n => let '(tok, rest) := break_space s in tok :: split n rest
      end
  end.

(** [s.partition(sep)[0]]: the part of [s] before the first occurrence of
    [sep], all of [s] when there is none. *)
Fixpoint before (s sep : string) : string :=
  if startswith s sep then EmptyString
  else
    match s with
    | String c s' => String c (before s' sep)
    | EmptyString => EmptyString
    end.

End Str.

(** ** [int(s, base)] *)

Module Int.

(** The digits of the literal: digits below [base], single underscores only
    between two digits, at least one digit, nothing else up to the end. *)
Fixpoint digits (base acc : Z) (prev_underscore seen : bool) (s : string)
  : option Z :=
  match s with
  | EmptyString => if prev_underscore then None else if seen then Some acc else None
  | String c s' =>
      if Ascii.eqb c "_" then
        if prev_underscore then None else digits base acc true seen s'
      else
        match Char.digit_value c with
        | Some d => if d <? base then digits base (acc * base + d) false true s' else None
        | None => None
        end
  end.

Definition sign (s : string) : Z * string :=
  match s with
  | String "+" s' => (1, s')
  | String "-" s' => (-1, s')
  | _ => (1, s)
  end.

(** For base 16 a prefix [0x] or [0X], and one underscore after it, are
    skipped. *)
Definition prefix (base : Z) (s : string) : string :=
  match s with
  | String "0" (String x s') =>
      if (base =? 16) && (Ascii.eqb x "x" || Ascii.eqb x "X") then
        match s' with
        | String "_" s'' => s''
        | _ => s'
        end
      else s
  | _ => s
  end.

(** The number of digits of a literal: its characters other than the
    underscores. *)
Fixpoint digit_count (s : string) : Z :=
  match s with
  | String c s' => (if Ascii.eqb c "_" then 0 else 1) + digit_count s'
  | EmptyString => 0
  end.

(** [sys.get_int_max_str_digits()], at its default. *)
Definition max_str_digits : Z := 4300.

(** The bases for which the conversion is linear and has no bound on the
    number of digits. *)
Definition binary_base (base : Z) : bool :=
  (base =? 2) || (base =? 4) || (base =? 8) || (base =? 16) || (base =? 32).

(** [int(s, base)] for a string [s] without leading or trailing whitespace
    (every call in the program passes a stripped string) and [base] 10 or 16.
    In a base that is not a power of two, a literal of more than
    [max_str_digits] digits raises [ValueError]. *)
Definition int (s : string) (base : Z) : option Z :=
  let '(sg, s1) := sign s in
  let s2 := prefix base s1 in
  match s2 with
  | String "_" _ => None
  | _ => match digits base 0 false false s2 with
         | Some v =>
             if negb (binary_base base) && (max_str_digits <? digit_count s2)
             then None
             else Some (sg * v)
         | None => None
         end
  end.

End Int.

(** ** The [re] patterns of the program

    A pattern is matched by backtracking: each combinator consumes a part of
    the subject and hands the rest to its continuation; the first success in
    the engine's order of preference is the match. *)

Module Re.

Section Combinators.
Context {R : Type}.

(** One literal character. *)
Definition lit (a : ascii) (k : string -> option R) (s : string) : option R :=
  match s with
  | String c s' => if Ascii.eqb a c then k s' else None
  | EmptyString => None
  end.

(** [[class]*], greedy. *)
Fixpoint star (p : ascii -> bool) (k : string -> option R) (s : string) : option R :=
  match s with
  | String c s' =>
      if p c then
        match star p k s' with
        | Some r => Some r
        | None => k s
        end
      else k s
  | EmptyString => k s
  end.

(** [[class]+], greedy. *)
Definition plus (p : ascii -> bool) (k : string -> option R) (s : string) : option R :=
  match s with
  | String c s' => if p c then star p k s' else None
  | EmptyString => None
  end.

(** [[class]*?] with the text matched so far in [g]; the continuation
    receives the text of the group. *)
Fixpoint lazy_more (p : ascii -> bool) (g : string)
    (k : string -> string -> option R) (s : string) : option R :=
  match k g s with
  | Some r => Some r
  | None =>
      match s with
      | String c s' =>
          if p c then lazy_more p (g +:+ String c EmptyString) k s' else None
      | EmptyString => None
      end
  end.

(** [([class]+?)], a capturing group around a lazy repetition. *)
Definition group_lazy_plus (p : ascii -> bool)
    (k : string -> string -> option R) (s : string) : option R :=
  match s with
  | String c s' => if p c then lazy_more p (String c EmptyString) k s' else None
  | EmptyString => None
  end.

(** [$] (no MULTILINE flag): at the end of the subject, or before a line
    feed that ends it. *)
Definition eol (k : string -> option R) (s : string) : option R :=
  match s with
  | EmptyString => k s
  | String c EmptyString => if (Char.code c =? 10)%N then k s else None
  | _ => None
  end.
End Combinators.

(** [re.match(r'^(0x[0-9a-fA-F]+|\d+)$', s)] as a truth value *)
Definition number (s : string) : bool :=
  let accept := eol (fun _ => Some tt) in
  match lit "0" (lit "x" (plus Char.ishex accept)) s with
  | Some _ => true
  | None => bool_decide (is_Some (plus Char.isdecimal accept s))
  end.

(** [re.match(r'^\(\s*([^+\-]+?)\s*\+\s*([^+\-]+?)\s*\)$', s)] when [op] is
    [+], and the same pattern with [\-] for the operator when [op] is [-];
    the result is [(m.group(1), m.group(2))]. *)
Definition binary (op : ascii) (s : string) : option (string * string) :=
  let close g1 g2 := star Char.isspace (lit ")" (eol (fun _ => Some (g1, g2)))) in
  let right g1 := star Char.isspace (group_lazy_plus Char.not_plus_minus (close g1)) in
  let left := star Char.isspace (group_lazy_plus Char.not_plus_minus
                (fun g1 => star Char.isspace (lit op (right g1)))) in
  lit "(" left s.

(** [re.sub(r'\s+', ' ', s)]: a whitespace character followed by another one
    is dropped, the last one of a run becomes one space. *)
Fixpoint sub_spaces (s : string) : string :=
  match s with
  | String c s' =>
      if Char.isspace c then
        match s' with
        | String c' _ => if Char.isspace c' then sub_spaces s' else String " " (sub_spaces s')
        | EmptyString => String " " EmptyString
        end
      else String c (sub_spaces s')
  | EmptyString => EmptyString
  end.

(** A match of [//.*$] at the start of [s]; the result is what follows the
    match (nothing, or the final line feed). *)
Definition comment (s : string) : option string :=
  lit "/" (lit "/" (star Char.not_newline (eol Some))) s.

(** [re.sub(r'//.*$', '', s)]: the leftmost match is removed.  What follows a
    match has at most one character, so no second match exists. *)
Fixpoint sub_comment (s : string) : string :=
  match s with
  | String c s' =>
      match comment s with
      | Some rest => rest
      | None => String c (sub_comment s')
      end
  | EmptyString => EmptyString
  end.

End Re.

(** ** The evaluator *)

(** A define record: [(const_name, value_expr)]. *)
Abbreviation define := (string * string)%type (only parsing).

(** Computations that receive the [symbols] dictionary by reference: they may
    raise [ValueError] ([None]) and hand the dictionary back as they leave
    it. *)
Definition eval (A : Type) : Type := gmap string Z -> option A * gmap string Z.

#[global] Instance eval_ret : MRet eval := fun A a symbols => (Some a, symbols).

#[global] Instance eval_bind : MBind eval := fun A B f m symbols =>
  match m symbols with
  | (Some a, symbols') => f a symbols'
  | (None, symbols') => (None, symbols')
  end.

(** [raise ValueError(...)] *)
Definition raise {A : Type} : eval A := fun symbols => (None, symbols).

(** A call of a function that does not receive the dictionary. *)
Definition call {A : Type} (r : option A) : eval A := fun symbols => (r, symbols).

(** [key in symbols] *)
Definition contains (key : string) : eval bool :=
  fun symbols => (Some (bool_decide (is_Some (symbols !! key))), symbols).

(** [symbols[key]] (a missing key would raise [KeyError]; every subscript of
    the program follows a successful [in] test). *)
Definition subscript (key : string) : eval Z :=
  fun symbols => (symbols !! key, symbols).

Definition parse_c_value (value_str : string) : option Z :=
  let value_str := Str.strip value_str in
  if Str.startswith value_str "0x" || Str.startswith value_str "0X" then
    Int.int value_str 16
  else if Str.isdigit value_str then
    Int.int value_str 10
  else None.

Definition evaluate_operand (operand : string) : eval Z :=
  let operand := Str.strip operand in
  if Re.number operand then call (parse_c_value operand)
  else
    known ← contains operand;
    if (known : bool) then subscript operand
    else raise.

Definition evaluate (expr : string) : eval Z :=
  let expr := Re.sub_spaces (Str.strip expr) in
  if Re.number expr then call (parse_c_value expr)
  else
    known ← contains expr;
    if (known : bool) then subscript expr
    else
      match Re.binary "+" expr with
      | Some (g1, g2) =>
          let left := Str.strip g1 in
          let right := Str.strip g2 in
          left_val ← evaluate_operand left;
          right_val ← evaluate_operand right;
          mret (left_val + right_val)
      | None =>
          match Re.binary "-" expr with
          | Some (g1, g2) =>
              let left := Str.strip g1 in
              let right := Str.strip g2 in
              left_val ← evaluate_operand left;
              right_val ← evaluate_operand right;
              mret (left_val - right_val)
          | None => raise
          end
      end.

(** ** The extractor *)

(** The test on [const_name] of [extract_defines_from_header]. *)
Definition wanted (const_name : string) : bool :=
  String.eqb const_name "THIRD_PARTY_EVENT_ID_MIN"
  || Str.startswith const_name "EVT_"
  || Str.startswith const_name "CDU_EVT_OFFSET_".

(** The body of the loop over the lines of the file: the record appended for
    [line], if any. *)
Definition extract_line (line : string) : option define :=
  let line := Str.strip line in
  if Str.startswith line "#define" then
    match Str.split 2 line with
    | define_keyword :: const_name :: value_expr :: _ =>
        if wanted const_name then
          let value_expr := Str.strip (Re.sub_comment value_expr) in
          Some (const_name, value_expr)
        else None
    | _ => None
    end
  else None.

(** [extract_defines_from_header] on the lines that iterating over the opened
    file delivers. *)
Definition extract_defines_from_header (lines : list string) : list define :=
  fold_left
    (fun defines line =>
       match extract_line line with
       | Some d => defines ++ [d]
       | None => defines
       end)
    lines [].

(** ** The resolver *)

(** The state of one pass: the dictionary, the pairs yielded in the pass and
    the list [still_unresolved]. *)
Record pass_state : Type := PassState {
  symbols : gmap string Z;
  yielded : list (string * Z);
  still_unresolved : list define
}.

(** The body of the [for] loop over [unresolved]. *)
Definition attempt (st : pass_state) (d : define) : pass_state :=
  let '(const_name, value_expr) := d in
  match evaluate value_expr (symbols st) with
  | (Some value, symbols') =>
      {| symbols := <[const_name := value]> symbols';
         yielded := yielded st ++ [(const_name, value)];
         still_unresolved := still_unresolved st |}
  | (None, symbols') =>
      {| symbols := symbols';
         yielded := yielded st;
         still_unresolved := still_unresolved st ++ [(const_name, value_expr)] |}
  end.

(** One pass: the [for] loop, entered with an empty [still_unresolved]. *)
Definition run_pass (symbols0 : gmap string Z) (unresolved : list define) : pass_state :=
  fold_left attempt unresolved
    {| symbols := symbols0; yielded := []; still_unresolved := [] |}.

(** What a run of the generator leaves: the pairs yielded, pass by pass, the
    dictionary at the end, and the records that the last loop reports. *)
Record run : Type := Run {
  passes : list (list (string * Z));
  final_symbols : gmap string Z;
  reported : list define
}.

(** The pairs in the order in which the generator yields them. *)
Definition output (r : run) : list (string * Z) := concat (passes r).

(** The lines printed to [sys.stderr]. *)
Definition error_line (d : define) : string :=
  "Error: Could not resolve " +:+ fst d +:+ " = " +:+ snd d.

Definition stderr (r : run) : list string := map error_line (reported r).

(** The [while] loop; [fuel] bounds the number of evaluations of its
    condition, and [None] means that the bound was reached. *)
Fixpoint resolve_loop (fuel : nat) (symbols0 : gmap string Z)
    (unresolved : list define) (resolved_count : nat) : option run :=
  match fuel with
  | O => None
  | S fuel' =>
      if bool_decide (unresolved <> []) && negb (Nat.eqb (length unresolved) resolved_count) then
        let st := run_pass symbols0 unresolved in
        match resolve_loop fuel' (symbols st) (still_unresolved st) (length unresolved) with
        | Some r => Some {| passes := yielded st :: passes r;
                            final_symbols := final_symbols r;
                            reported := reported r |}
        | None => None
        end
      else Some {| passes := []; final_symbols := symbols0; reported := unresolved |}
  end.

(** [resolve_dependencies], consumed to its end. *)
Definition resolve_dependencies (defines : list define) : option run :=
  resolve_loop (S (length defines)) ∅ defines 0.

(** ** Notions used by the statements *)

(** The value that [evaluate_operand] returns, as a function of the
    dictionary (see [evaluate_operand_run]). *)
Definition operand_value (operand : string) (symbols : gmap string Z) : option Z :=
  let operand := Str.strip operand in
  if Re.number operand then parse_c_value operand else symbols !! operand.

(** The operands that a match of one of the two parenthesized patterns
    captures, stripped. *)
Definition operands (expr : string) : option (ascii * string * string) :=
  match Re.binary "+" expr with
  | Some (g1, g2) => Some ("+"%char, Str.strip g1, Str.strip g2)
  | None =>
      match Re.binary "-" expr with
      | Some (g1, g2) => Some ("-"%char, Str.strip g1, Str.strip g2)
      | None => None
      end
  end.

(** The value that [evaluate] returns (see [evaluate_run]). *)
Definition expr_value (expr : string) (symbols : gmap string Z) : option Z :=
  let expr := Re.sub_spaces (Str.strip expr) in
  if Re.number expr then parse_c_value expr
  else
    match symbols !! expr with
    | Some v => Some v
    | None =>
        match operands expr with
        | Some (op, lhs, rhs) =>
            left_val ← operand_value lhs symbols;
            right_val ← operand_value rhs symbols;
            Some (if Ascii.eqb op "+" then left_val + right_val else left_val - right_val)
        | None => None
        end
    end.

(** The names that an operand needs in the dictionary. *)
Definition operand_names (operand : string) : list string :=
  let operand := Str.strip operand in
  if Re.number operand then [] else [operand].

(** The constant names on which the evaluation of [expr] depends when the
    dictionary is [symbols]: none for a literal; the expression itself when
    it is a key; otherwise the operands that are not literals, or the
    expression itself when it has no operands. *)
Definition depends_on (expr : string) (symbols : gmap string Z) : list string :=
  let expr := Re.sub_spaces (Str.strip expr) in
  if Re.number expr then []
  else
    match symbols !! expr with
    | Some _ => [expr]
    | None =>
        match operands expr with
        | Some (_, lhs, rhs) => operand_names lhs ++ operand_names rhs
        | None => [expr]
        end
    end.

(** The dictionary after the assignments that go with the pairs [out],
    started from [symbols0]. *)
Definition assign_all (symbols0 : gmap string Z) (out : list (string * Z)) : gmap string Z :=
  fold_left (fun m p => <[fst p := snd p]> m) out symbols0.

(** The dictionary of a run once the pairs [out] have been yielded. *)
Definition symbols_after (out : list (string * Z)) : gmap string Z :=
  assign_all ∅ out.

(** A resolved record with its value, and the pair yielded for it. *)
Definition pair_of (rv : define * Z) : string * Z := (fst (fst rv), snd rv).

(** [tdep res i m]: the [i]-th resolved record of [res] depends on the name
    [m], directly or through an earlier pair that it read. *)
Inductive tdep (res : list (define * Z)) : nat -> string -> Prop :=
  | tdep_direct i d v m :
      res !! i = Some (d, v) ->
      m ∈ depends_on (snd d) (symbols_after (map pair_of (take i res))) ->
      tdep res i m
  | tdep_trans i d v m' j d' v' m :
      res !! i = Some (d, v) ->
      m' ∈ depends_on (snd d) (symbols_after (map pair_of (take i res))) ->
      (j < i)%nat ->
      res !! j = Some (d', v') ->
      fst d' = m' ->
      tdep res j m ->
      tdep res i m.


(** A character that is not whitespace. *)
Definition nonspace (c : ascii) : bool := negb (Char.isspace c).

(** The digit that a character denotes (0 when it is not one). *)
Definition digit (c : ascii) : Z := default 0 (Char.digit_value c).

(** The number that the digits [ds] denote in base [base]: each digit counts
    with the power of the base of its position. *)
Fixpoint numeral (base : Z) (ds : string) : Z :=
  match ds with
  | String c ds' => digit c * base ^ Z.of_nat (String.length ds') + numeral base ds'
  | EmptyString => 0
  end.

(** The records that one pass over [unresolved] resolves, each with its
    value and in the order of the pass, and the records that it leaves (see
    [run_pass_result]). *)
Fixpoint pass_result (symbols0 : gmap string Z) (unresolved : list define)
  : list (define * Z) * list define :=
  match unresolved with
  | d :: rest =>
      match expr_value (snd d) symbols0 with
      | Some v =>
          let '(res, left_over) := pass_result (<[fst d := v]> symbols0) rest in
          ((d, v) :: res, left_over)
      | None =>
          let '(res, left_over) := pass_result symbols0 rest in
          (res, d :: left_over)
      end
  | [] => ([], [])
  end.

(** The expression of a record cannot be evaluated with the dictionary. *)
Definition fails (symbols0 : gmap string Z) (d : define) : Prop :=
  expr_value (snd d) symbols0 = None.

(** [loop_passes n ps m]: the shape of the passes [ps] of a loop entered
    with [n] unresolved records and left with [m] of them.  With no record
    there is no pass; a pass that resolves nothing is the last one and leaves
    all [n] records; a pass that resolves some records is followed by the
    passes of a loop entered with the records that remain. *)
Inductive loop_passes : nat -> list (list (string * Z)) -> nat -> Prop :=
  | passes_none : loop_passes 0 [] 0
  | passes_stuck n : (0 < n)%nat -> loop_passes n [[]] n
  | passes_progress n p ps m :
      p <> [] -> (length p <= n)%nat ->
      loop_passes (n - length p) ps m ->
      loop_passes n (p :: ps) m.

(** The statement that no entry of the dictionary is ever lost or changed
    in a run on [defines]: a value found under a key once some pairs have
    been yielded is found there after every later pair. *)
Definition never_overwritten (defines : list define) : Prop :=
  forall r, resolve_dependencies defines = Some r ->
  forall (i j : nat) k v, (i <= j)%nat ->
    symbols_after (take i (output r)) !! k = Some v ->
    symbols_after (take j (output r)) !! k = Some v.

(** A word: one character or more, none of them whitespace. *)
Definition word (w : string) : Prop :=
  w <> "" /\ Str.all_chars nonspace w = true.

(** A gap: one whitespace character or more. *)
Definition blank (g : string) : Prop :=
  g <> "" /\ Str.all_chars Char.isspace g = true.

Definition starts_nonspace (s : string) : bool :=
  match s with
  | String c _ => nonspace c
  | EmptyString => false
  end.

(** [line] is the word [kw], a gap, the word [name], a gap, and the text
    [rest], which starts with a character that is not whitespace and is not
    cut any further. *)
Definition splits_in_three (line kw name rest : string) : Prop :=
  exists gap1 gap2,
    line = kw +:+ gap1 +:+ name +:+ gap2 +:+ rest
    /\ word kw /\ blank gap1 /\ word name /\ blank gap2
    /\ starts_nonspace rest = true.

(** The rule of selection in the words of the specification: the first of
    the three tokens of the stripped line is the directive keyword [#define]
    itself, and the name passes the filter. *)
Definition selected_by_keyword (line : string) : Prop :=
  exists name rest,
    splits_in_three (Str.strip line) "#define" name rest
    /\ (name = "THIRD_PARTY_EVENT_ID_MIN"
        \/ Str.startswith name "EVT_" = true
        \/ Str.startswith name "CDU_EVT_OFFSET_" = true).

(** The number of characters [+] and [-] in a text. *)
Fixpoint operator_count (s : string) : nat :=
  match s with
  | String c s' => ((if Char.not_plus_minus c then 0 else 1) + operator_count s')%nat
  | EmptyString => 0%nat
  end.

(** [resolves_in_order s defines out]: read in the order of the list, each
    record of [defines] can be evaluated with the dictionary [s] extended by
    the records before it; [out] lists the names with the values obtained. *)
Inductive resolves_in_order :
    gmap string Z -> list define -> list (string * Z) -> Prop :=
  | in_order_nil s : resolves_in_order s [] []
  | in_order_cons s d v rest out :
      fst (evaluate (snd d) s) = Some v ->
      resolves_in_order (<[fst d := v]> s) rest out ->
      resolves_in_order s (d :: rest) ((fst d, v) :: out).

(** Whether a record fails with a dictionary can be decided. *)
#[local] Instance fails_dec s d : Decision (fails s d).
Proof. unfold fails. apply _. Defined.

(** * Properties *)

(** ** The evaluator reads the dictionary only *)

Lemma evaluate_operand_run operand symbols :
  evaluate_operand operand symbols = (operand_value operand symbols, symbols).
Proof.
  unfold evaluate_operand, operand_value.
  destruct (Re.number (Str.strip operand)); [reflexivity|].
  unfold mbind, eval_bind, contains, subscript, raise. simpl.
  destruct (symbols !! Str.strip operand) as [v|] eqn:E.
  - rewrite bool_decide_eq_true_2 by eauto. by rewrite E.
  - rewrite bool_decide_eq_false_2; [done|]. by intros [? ?].
Qed.

Lemma evaluate_run expr symbols :
  evaluate expr symbols = (expr_value expr symbols, symbols).
Proof.
  unfold evaluate, expr_value, operands.
  destruct (Re.number _); [reflexivity|].
  unfold mbind at 1. unfold eval_bind at 1. unfold contains. simpl.
  destruct (symbols !! _) as [v|] eqn:E.
  - rewrite bool_decide_eq_true_2 by eauto. unfold subscript. by rewrite E.
  - rewrite bool_decide_eq_false_2 by (by intros [? ?]).
    destruct (Re.binary "+" _) as [[g1 g2]|].
    + unfold mbind, eval_bind. rewrite !evaluate_operand_run. simpl.
      destruct (operand_value (Str.strip g1) symbols); simpl; [|done].
      destruct (operand_value (Str.strip g2) symbols); done.
    + destruct (Re.binary "-" _) as [[g1 g2]|]; [|done].
      unfold mbind, eval_bind. rewrite !evaluate_operand_run. simpl.
      destruct (operand_value (Str.strip g1) symbols); simpl; [|done].
      destruct (operand_value (Str.strip g2) symbols); done.
Qed.

(** ** Strings without whitespace *)

Ltac by_cases_on_char c :=
  destruct c as [[|] [|] [|] [|] [|] [|] [|] [|]]; vm_compute; try done; eauto.

Lemma ishex_nonspace c : Char.ishex c = true -> nonspace c = true.
Proof. by_cases_on_char c. Qed.

Lemma isdecimal_ishex c : Char.isdecimal c = true -> Char.ishex c = true.
Proof. by_cases_on_char c. Qed.

Lemma isdecimal_isdigit c : Char.isdecimal c = true -> Char.isdigit c = true.
Proof. by_cases_on_char c. Qed.

Lemma all_chars_impl (p q : ascii -> bool) s :
  (forall c, p c = true -> q c = true) ->
  Str.all_chars p s = true -> Str.all_chars q s = true.
Proof.
  intros Hpq. induction s as [|c s IH]; simpl; [done|].
  intros [Hc Hs]%andb_prop. rewrite (Hpq _ Hc). simpl. auto.
Qed.

Lemma all_chars_app p s t :
  Str.all_chars p (s +:+ t) = Str.all_chars p s && Str.all_chars p t.
Proof. induction s as [|c s IH]; simpl; [done|]. by rewrite IH, andb_assoc. Qed.

Lemma lstrip_nonspace s : Str.all_chars nonspace s = true -> Str.lstrip s = s.
Proof.
  destruct s as [|c s]; simpl; [done|]. unfold nonspace at 1.
  by destruct (Char.isspace c).
Qed.

Lemma rstrip_nonspace s : Str.all_chars nonspace s = true -> Str.rstrip s = s.
Proof.
  induction s as [|c s IH]; simpl; [done|].
  intros [Hc Hs]%andb_prop. rewrite (IH Hs).
  unfold nonspace in Hc. destruct s; [|done]. by destruct (Char.isspace c).
Qed.

Lemma strip_nonspace s : Str.all_chars nonspace s = true -> Str.strip s = s.
Proof. intros H. unfold Str.strip. by rewrite (lstrip_nonspace _ H), rstrip_nonspace. Qed.

Lemma sub_spaces_nonspace s : Str.all_chars nonspace s = true -> Re.sub_spaces s = s.
Proof.
  induction s as [|c s IH]; simpl; [done|].
  intros [Hc Hs]%andb_prop. unfold nonspace in Hc.
  destruct (Char.isspace c); [done|]. by rewrite (IH Hs).
Qed.

(** ** Literals *)

Lemma ishex_digit c :
  Char.ishex c = true ->
  Ascii.eqb c "_" = false /\ Char.digit_value c = Some (digit c) /\ (digit c <? 16) = true.
Proof. by_cases_on_char c. Qed.

Lemma isdecimal_digit c :
  Char.isdecimal c = true ->
  Ascii.eqb c "_" = false /\ Char.digit_value c = Some (digit c) /\ (digit c <? 10) = true.
Proof. by_cases_on_char c. Qed.

Lemma digits_numeral base (p : ascii -> bool) :
  (forall c, p c = true ->
     Ascii.eqb c "_" = false /\ Char.digit_value c = Some (digit c) /\ (digit c <? base) = true) ->
  forall ds acc seen,
    Str.all_chars p ds = true ->
    seen = true \/ ds <> "" ->
    Int.digits base acc false seen ds
    = Some (acc * base ^ Z.of_nat (String.length ds) + numeral base ds).
Proof.
  intros Hp. induction ds as [|c ds IH]; intros acc seen Hall Hseen.
  - destruct Hseen as [->|?]; [|done]. simpl. f_equal. lia.
  - simpl in Hall. apply andb_prop in Hall as [Hc Hds].
    destruct (Hp c Hc) as (Hu & Hd & Hlt).
    cbn [Int.digits]. rewrite Hu, Hd, Hlt, (IH _ true Hds) by auto.
    f_equal. cbn [numeral String.length].
    rewrite Nat2Z.inj_succ, Z.pow_succ_r by lia. lia.
Qed.

Lemma star_all_accept (p : ascii -> bool) s :
  Str.all_chars p s = true -> is_Some (Re.star p (Re.eol (fun _ => Some tt)) s).
Proof.
  induction s as [|c s IH]; simpl; [eauto|].
  intros [Hc Hs]%andb_prop. rewrite Hc.
  destruct (IH Hs) as [r ->]. eauto.
Qed.

Lemma plus_all_accept (p : ascii -> bool) s :
  s <> "" -> Str.all_chars p s = true ->
  is_Some (Re.plus p (Re.eol (fun _ => Some tt)) s).
Proof.
  destruct s as [|c s]; [done|]. simpl. intros _ [Hc Hs]%andb_prop.
  rewrite Hc. by apply star_all_accept.
Qed.

Lemma number_hex ds :
  ds <> "" -> Str.all_chars Char.ishex ds = true -> Re.number ("0x" +:+ ds) = true.
Proof.
  intros Hne Hall. destruct (plus_all_accept _ _ Hne Hall) as [r Hr].
  change (match Re.plus Char.ishex (Re.eol (fun _ => Some tt)) ds with
          | Some _ => true
          | None => bool_decide (is_Some (Re.plus Char.isdecimal
                      (Re.eol (fun _ => Some tt)) ("0x" +:+ ds)))
          end = true).
  by rewrite Hr.
Qed.

Lemma number_decimal ds :
  ds <> "" -> Str.all_chars Char.isdecimal ds = true -> Re.number ds = true.
Proof.
  intros Hne Hall. unfold Re.number.
  destruct (Re.lit _ _ ds); [done|].
  apply bool_decide_eq_true_2. by apply plus_all_accept.
Qed.

Lemma int_hex_prefixed x ds :
  x = "x"%char \/ x = "X"%char ->
  ds <> "" -> Str.all_chars Char.ishex ds = true ->
  Int.int (String "0" (String x ds)) 16 = Some (numeral 16 ds).
Proof.
  intros Hx Hne Hall.
  pose proof (digits_numeral 16 Char.ishex ishex_digit ds 0 false Hall (or_intror Hne)) as Hd.
  destruct ds as [|c ds]; [done|].
  assert (Hc : Ascii.eqb c "_" = false).
  { simpl in Hall. apply andb_prop in Hall as [Hc _]. by apply ishex_digit in Hc as [? _]. }
  unfold Int.int.
  assert (Int.prefix 16 (String "0" (String x (String c ds))) = String c ds) as Hp.
  { destruct Hx as [-> | ->];
      destruct c as [[|] [|] [|] [|] [|] [|] [|] [|]]; try reflexivity; discriminate Hc. }
  cbn [Int.sign]. rewrite Hp.
  replace (match String c ds with String "_" _ => None | _ =>
             match Int.digits 16 0 false false (String c ds) with
             | Some v =>
                 if negb (Int.binary_base 16)
                    && (Int.max_str_digits <? Int.digit_count (String c ds))
                 then None else Some (1 * v)
             | None => None end end)
    with (match Int.digits 16 0 false false (String c ds) with
          | Some v => Some (1 * v) | None => None end).
  - rewrite Hd. f_equal. lia.
  - destruct (Int.digits 16 0 false false (String c ds));
      destruct c as [[|] [|] [|] [|] [|] [|] [|] [|]]; try reflexivity; discriminate Hc.
Qed.

Lemma parse_c_value_hex x ds :
  x = "x"%char \/ x = "X"%char ->
  ds <> "" -> Str.all_chars Char.ishex ds = true ->
  parse_c_value (String "0" (String x ds)) = Some (numeral 16 ds).
Proof.
  intros Hx Hne Hall. unfold parse_c_value.
  assert (Str.all_chars nonspace (String "0" (String x ds)) = true) as Hns.
  { cbn [Str.all_chars]. rewrite (all_chars_impl _ _ _ ishex_nonspace Hall).
    destruct Hx as [-> | ->]; reflexivity. }
  rewrite (strip_nonspace _ Hns).
  replace (Str.startswith (String "0" (String x ds)) "0x"
           || Str.startswith (String "0" (String x ds)) "0X") with true
    by (destruct Hx as [-> | ->]; reflexivity).
  by apply int_hex_prefixed.
Qed.

Lemma decimal_not_prefixed ds p :
  Str.all_chars Char.isdecimal ds = true ->
  p = "0x" \/ p = "0X" -> Str.startswith ds p = false.
Proof.
  intros Hall Hp. destruct ds as [|a [|b ds]].
  - by destruct Hp as [-> | ->].
  - destruct Hp as [-> | ->]; cbn [Str.startswith]; by destruct (Ascii.eqb "0" a).
  - simpl in Hall. apply andb_prop in Hall as [_ [Hb _]%andb_prop].
    assert (Ascii.eqb "x" b = false /\ Ascii.eqb "X" b = false) as [H1 H2].
    { revert Hb. by_cases_on_char b. }
    destruct Hp as [-> | ->]; cbn [Str.startswith]; rewrite ?H1, ?H2;
      by destruct (Ascii.eqb "0" a).
Qed.

Lemma digit_count_decimal ds :
  Str.all_chars Char.isdecimal ds = true ->
  Int.digit_count ds = Z.of_nat (String.length ds).
Proof.
  induction ds as [|c ds IH]; [done|]. cbn [Str.all_chars Int.digit_count String.length].
  intros [Hc Hds]%andb_prop. rewrite (IH Hds).
  destruct (isdecimal_digit c Hc) as [-> _]. lia.
Qed.

Lemma int_decimal ds :
  ds <> "" -> Str.all_chars Char.isdecimal ds = true ->
  Z.of_nat (String.length ds) <= Int.max_str_digits ->
  Int.int ds 10 = Some (numeral 10 ds).
Proof.
  intros Hne Hall Hlen.
  pose proof (digits_numeral 10 Char.isdecimal isdecimal_digit ds 0 false Hall (or_intror Hne)) as Hd.
  pose proof (digit_count_decimal ds Hall) as Hcount.
  destruct ds as [|c ds]; [done|].
  assert (Hc : Char.isdecimal c = true).
  { simpl in Hall. by apply andb_prop in Hall as [Hc _]. }
  unfold Int.int.
  assert (Int.sign (String c ds) = (1, String c ds)) as ->.
  { revert Hc. by_cases_on_char c. }
  assert (Int.prefix 10 (String c ds) = String c ds) as ->.
  { destruct ds as [|x ds]; destruct c as [[|] [|] [|] [|] [|] [|] [|] [|]]; reflexivity. }
  assert (negb (Int.binary_base 10)
          && (Int.max_str_digits <? Int.digit_count (String c ds)) = false) as Hlimit.
  { rewrite Hcount. apply andb_false_iff. right. apply Z.ltb_ge. exact Hlen. }
  replace (match String c ds with String "_" _ => None | _ =>
             match Int.digits 10 0 false false (String c ds) with
             | Some v =>
                 if negb (Int.binary_base 10)
                    && (Int.max_str_digits <? Int.digit_count (String c ds))
                 then None else Some (1 * v)
             | None => None end end)
    with (match Int.digits 10 0 false false (String c ds) with
          | Some v => Some (1 * v) | None => None end).
  - rewrite Hd. f_equal. lia.
  - rewrite Hlimit. destruct (Int.digits 10 0 false false (String c ds));
      revert Hc; by_cases_on_char c.
Qed.

Lemma int_decimal_long ds :
  Str.all_chars Char.isdecimal ds = true ->
  Int.max_str_digits < Z.of_nat (String.length ds) ->
  Int.int ds 10 = None.
Proof.
  intros Hall Hlen.
  pose proof (digit_count_decimal ds Hall) as Hcount.
  destruct ds as [|c ds]; [done|].
  assert (Hc : Char.isdecimal c = true).
  { simpl in Hall. by apply andb_prop in Hall as [Hc _]. }
  unfold Int.int.
  assert (Int.sign (String c ds) = (1, String c ds)) as ->.
  { revert Hc. by_cases_on_char c. }
  assert (Int.prefix 10 (String c ds) = String c ds) as ->.
  { destruct ds as [|x ds]; destruct c as [[|] [|] [|] [|] [|] [|] [|] [|]]; reflexivity. }
  assert (negb (Int.binary_base 10)
          && (Int.max_str_digits <? Int.digit_count (String c ds)) = true) as ->.
  { rewrite Hcount. apply andb_true_iff. split; [reflexivity|]. by apply Z.ltb_lt. }
  destruct (Int.digits 10 0 false false (String c ds));
    destruct c as [[|] [|] [|] [|] [|] [|] [|] [|]]; reflexivity.
Qed.

Lemma parse_c_value_decimal ds :
  ds <> "" -> Str.all_chars Char.isdecimal ds = true ->
  Z.of_nat (String.length ds) <= Int.max_str_digits ->
  parse_c_value ds = Some (numeral 10 ds).
Proof.
  intros Hne Hall Hlen. unfold parse_c_value.
  assert (Str.all_chars nonspace ds = true) as Hns.
  { apply (all_chars_impl Char.ishex); [apply ishex_nonspace|].
    by apply (all_chars_impl Char.isdecimal); [apply isdecimal_ishex|]. }
  rewrite (strip_nonspace _ Hns).
  rewrite !(decimal_not_prefixed ds) by auto. cbn [orb].
  assert (Str.isdigit ds = true) as ->.
  { unfold Str.isdigit. destruct ds; [done|].
    by apply (all_chars_impl Char.isdecimal); [apply isdecimal_isdigit|]. }
  by apply int_decimal.
Qed.

Lemma evaluate_hex expr symbols ds :
  Re.sub_spaces (Str.strip expr) = "0x" +:+ ds ->
  ds <> "" -> Str.all_chars Char.ishex ds = true ->
  fst (evaluate expr symbols) = Some (numeral 16 ds).
Proof.
  intros Hexpr Hne Hall. rewrite evaluate_run. unfold expr_value. cbn [fst].
  rewrite Hexpr, (number_hex _ Hne Hall).
  apply parse_c_value_hex; auto.
Qed.

Lemma parse_c_value_decimal_long ds :
  ds <> "" -> Str.all_chars Char.isdecimal ds = true ->
  Int.max_str_digits < Z.of_nat (String.length ds) ->
  parse_c_value ds = None.
Proof.
  intros Hne Hall Hlen. unfold parse_c_value.
  assert (Str.all_chars nonspace ds = true) as Hns.
  { apply (all_chars_impl Char.ishex); [apply ishex_nonspace|].
    by apply (all_chars_impl Char.isdecimal); [apply isdecimal_ishex|]. }
  rewrite (strip_nonspace _ Hns).
  rewrite !(decimal_not_prefixed ds) by auto. cbn [orb].
  assert (Str.isdigit ds = true) as ->.
  { unfold Str.isdigit. destruct ds; [done|].
    by apply (all_chars_impl Char.isdecimal); [apply isdecimal_isdigit|]. }
  by apply int_decimal_long.
Qed.

Lemma evaluate_decimal expr symbols ds :
  Re.sub_spaces (Str.strip expr) = ds ->
  ds <> "" -> Str.all_chars Char.isdecimal ds = true ->
  Z.of_nat (String.length ds) <= Int.max_str_digits ->
  fst (evaluate expr symbols) = Some (numeral 10 ds).
Proof.
  intros Hexpr Hne Hall Hlen. rewrite evaluate_run. unfold expr_value. cbn [fst].
  rewrite Hexpr, (number_decimal _ Hne Hall).
  by apply parse_c_value_decimal.
Qed.

Lemma evaluate_decimal_long expr symbols ds :
  Re.sub_spaces (Str.strip expr) = ds ->
  ds <> "" -> Str.all_chars Char.isdecimal ds = true ->
  Int.max_str_digits < Z.of_nat (String.length ds) ->
  fst (evaluate expr symbols) = None.
Proof.
  intros Hexpr Hne Hall Hlen. rewrite evaluate_run. unfold expr_value. cbn [fst].
  rewrite Hexpr, (number_decimal _ Hne Hall).
  by apply parse_c_value_decimal_long.
Qed.

Lemma evaluate_hex_upper symbols ds :
  ds <> "" -> Str.all_chars Char.ishex ds = true ->
  symbols !! ("0X" +:+ ds) = None ->
  fst (evaluate ("0X" +:+ ds) symbols) = None.
Proof.
  intros Hne Hall Hkey. rewrite evaluate_run. unfold expr_value. cbn [fst].
  assert (Str.all_chars nonspace ("0X" +:+ ds) = true) as Hns.
  { change (nonspace "0" && (nonspace "X" && Str.all_chars nonspace ds) = true).
    by rewrite (all_chars_impl _ _ _ ishex_nonspace Hall). }
  rewrite (strip_nonspace _ Hns), (sub_spaces_nonspace _ Hns), Hkey.
  destruct ds as [|c ds]; [done|]. reflexivity.
Qed.

(** C2.  On the literal [0X10] the two halves of the program disagree:
    [parse_c_value] reads an upper-case prefix as base 16, but the pattern
    that guards it in [evaluate] admits the lower-case prefix only, so
    [evaluate] raises [ValueError]; the same digits behind [0x], and the
    decimal literal [16], evaluate to 16.  The header line
    [#define EVT_X 0X10] is extracted, and its record ends among the
    unresolved ones. *)
Theorem evaluate_upper_case_prefix :
  fst (evaluate "0X10" ∅) = None
  /\ parse_c_value "0X10" = Some 16
  /\ fst (evaluate "0x10" ∅) = Some 16
  /\ fst (evaluate "16" ∅) = Some 16
  /\ extract_line "#define EVT_X 0X10" = Some ("EVT_X", "0X10")
  /\ resolve_dependencies [("EVT_X", "0X10")]
     = Some {| passes := [[]]; final_symbols := ∅; reported := [("EVT_X", "0X10")] |}.
Proof. repeat split; vm_compute; reflexivity. Qed.

(** ** What an evaluation needs from the dictionary *)

Lemma operand_value_names operand (symbols : gmap string Z) v m :
  operand_value operand symbols = Some v ->
  m ∈ operand_names operand -> is_Some (symbols !! m).
Proof.
  unfold operand_value, operand_names.
  destruct (Re.number _); [by intros _ ?%elem_of_nil|].
  intros Hv ->%list_elem_of_singleton. eauto.
Qed.

Lemma expr_value_names expr (symbols : gmap string Z) v m :
  expr_value expr symbols = Some v ->
  m ∈ depends_on expr symbols -> is_Some (symbols !! m).
Proof.
  unfold expr_value, depends_on.
  destruct (Re.number _); [by intros _ ?%elem_of_nil|].
  destruct (symbols !! Re.sub_spaces (Str.strip expr)) as [w|] eqn:E.
  { intros _ ->%list_elem_of_singleton. eauto. }
  destruct (operands _) as [[[op lhs] rhs]|]; [|done].
  destruct (operand_value lhs symbols) as [a|] eqn:Ha; [|done].
  destruct (operand_value rhs symbols) as [b|] eqn:Hb; [|done].
  intros _ [Hm|Hm]%elem_of_app; eauto using operand_value_names.
Qed.

Lemma operand_value_mono operand (s1 s2 : gmap string Z) :
  (forall k, is_Some (s1 !! k) -> is_Some (s2 !! k)) ->
  is_Some (operand_value operand s1) -> is_Some (operand_value operand s2).
Proof.
  unfold operand_value. intros Hsub. destruct (Re.number _); auto.
Qed.

Lemma expr_value_mono expr (s1 s2 : gmap string Z) :
  (forall k, is_Some (s1 !! k) -> is_Some (s2 !! k)) ->
  is_Some (expr_value expr s1) -> is_Some (expr_value expr s2).
Proof.
  unfold expr_value. intros Hsub. destruct (Re.number _); [done|].
  destruct (s2 !! Re.sub_spaces (Str.strip expr)) as [w2|] eqn:E2; [eauto|].
  destruct (s1 !! Re.sub_spaces (Str.strip expr)) as [w1|] eqn:E1.
  { destruct (Hsub _ (mk_is_Some _ _ E1)) as [? ?]. congruence. }
  destruct (operands _) as [[[op lhs] rhs]|]; [|done].
  destruct (operand_value lhs s1) as [a|] eqn:Ha; [|by intros [? ?]].
  destruct (operand_value rhs s1) as [b|] eqn:Hb; [|by intros [? ?]].
  intros _.
  destruct (operand_value_mono lhs s1 s2 Hsub (mk_is_Some _ _ Ha)) as [a' ->].
  destruct (operand_value_mono rhs s1 s2 Hsub (mk_is_Some _ _ Hb)) as [b' ->].
  simpl. eauto.
Qed.

Lemma append_empty_r s : s +:+ "" = s.
Proof. induction s as [|c s IH]; [done|]. change (String c (s +:+ "") = String c s). by rewrite IH. Qed.

Lemma code_newline c : (Char.code c =? 10)%N = true -> c = "010"%char.
Proof.
  intros H%N.eqb_eq. unfold Char.code in H.
  rewrite <- (ascii_N_embedding c), H. reflexivity.
Qed.

Lemma star_accept_inv (p : ascii -> bool) s :
  is_Some (Re.star p (Re.eol (fun _ => Some tt)) s) ->
  exists ds tail,
    s = ds +:+ tail /\ Str.all_chars p ds = true
    /\ (tail = "" \/ tail = String "010" "").
Proof.
  assert (forall t, is_Some (Re.eol (fun _ => Some tt) t) ->
            t = "" \/ t = String "010" "") as Heol.
  { intros [|c [|c' t]]; simpl; [auto| |by intros ?%is_Some_None].
    destruct (Char.code c =? 10)%N eqn:Hc; [|by intros ?%is_Some_None].
    intros _. right. by rewrite (code_newline c Hc). }
  induction s as [|c s IH].
  - intros _. exists "", "". auto.
  - cbn [Re.star]. destruct (p c) eqn:Hc.
    + destruct (Re.star p _ s) as [r|] eqn:Hs.
      * intros _. destruct IH as (ds & tail & -> & Hds & Htail); [eauto|].
        exists (String c ds), tail. split; [done|]. simpl. by rewrite Hc.
      * intros Hk. exists "", (String c s). auto.
    + intros Hk. exists "", (String c s). auto.
Qed.

Lemma plus_accept_inv (p : ascii -> bool) s :
  is_Some (Re.plus p (Re.eol (fun _ => Some tt)) s) ->
  exists ds tail,
    s = ds +:+ tail /\ ds <> "" /\ Str.all_chars p ds = true
    /\ (tail = "" \/ tail = String "010" "").
Proof.
  destruct s as [|c s]; [by intros ?%is_Some_None|]. cbn [Re.plus].
  destruct (p c) eqn:Hc; [|by intros ?%is_Some_None].
  intros (ds & tail & -> & Hds & Htail)%star_accept_inv.
  exists (String c ds), tail. split; [done|]. split; [done|]. simpl. by rewrite Hc.
Qed.

Lemma number_inv s :
  Re.number s = true ->
  exists ds tail,
    ds <> "" /\ (tail = "" \/ tail = String "010" "")
    /\ (s = "0x" +:+ ds +:+ tail /\ Str.all_chars Char.ishex ds = true
        \/ s = ds +:+ tail /\ Str.all_chars Char.isdecimal ds = true).
Proof.
  unfold Re.number.
  destruct (Re.lit "0" _ s) as [u|] eqn:Hhex.
  - intros _. unfold Re.lit in Hhex.
    destruct s as [|c0 [|c1 s]]; [done| |].
    { by destruct (Ascii.eqb "0" c0). }
    destruct (Ascii.eqb "0" c0) eqn:H0; [|done].
    destruct (Ascii.eqb "x" c1) eqn:H1; [|done].
    apply Ascii.eqb_eq in H0 as <-. apply Ascii.eqb_eq in H1 as <-.
    destruct (plus_accept_inv Char.ishex s) as (ds & tail & -> & Hne & Hds & Htail); [eauto|].
    exists ds, tail. auto.
  - intros Hdec%bool_decide_eq_true.
    destruct (plus_accept_inv _ _ Hdec) as (ds & tail & -> & Hne & Hds & Htail).
    exists ds, tail. auto.
Qed.

Lemma rstrip_tail x tail :
  Str.all_chars nonspace x = true ->
  tail = "" \/ tail = String "010" "" ->
  Str.rstrip (x +:+ tail) = x.
Proof.
  intros Hx [-> | ->]; [rewrite append_empty_r; by apply rstrip_nonspace|].
  induction x as [|c x IH]; [reflexivity|].
  simpl in Hx. apply andb_prop in Hx as [Hc Hx].
  change (Str.rstrip (String c (x +:+ String "010" "")) = String c x).
  cbn [Str.rstrip]. rewrite (IH Hx). unfold nonspace in Hc.
  destruct x; [|done]. by destruct (Char.isspace c).
Qed.

Lemma strip_tail x tail :
  x <> "" -> Str.all_chars nonspace x = true ->
  tail = "" \/ tail = String "010" "" ->
  Str.strip (x +:+ tail) = x.
Proof.
  intros Hne Hx Htail. unfold Str.strip.
  assert (Str.lstrip (x +:+ tail) = x +:+ tail) as ->.
  { destruct x as [|c x]; [done|]. simpl in Hx. apply andb_prop in Hx as [Hc _].
    change (Str.lstrip (String c (x +:+ tail)) = String c (x +:+ tail)).
    simpl. unfold nonspace in Hc. by destruct (Char.isspace c). }
  by apply rstrip_tail.
Qed.

Lemma parse_c_value_strip s x :
  Str.strip s = x -> Str.strip x = x -> parse_c_value s = parse_c_value x.
Proof. intros Hs Hx. unfold parse_c_value. by rewrite Hs, Hx. Qed.

(** Whatever the pattern for literals admits, [parse_c_value] parses. *)
Lemma length_append a b :
  String.length (a +:+ b) = (String.length a + String.length b)%nat.
Proof.
  induction a as [|c a IH]; [done|].
  change (String c a +:+ b) with (String c (a +:+ b)).
  cbn [String.length]. by rewrite IH.
Qed.

(** A literal that the pattern admits is parsed, unless it has more digits
    than the interpreter converts in base 10. *)
Lemma parse_c_value_number s :
  Re.number s = true ->
  Z.of_nat (String.length s) <= Int.max_str_digits ->
  is_Some (parse_c_value s).
Proof.
  intros (ds & tail & Hne & Htail & [[-> Hds]|[-> Hds]])%number_inv Hlen.
  - assert (Str.all_chars nonspace ("0x" +:+ ds) = true) as Hns.
    { change (nonspace "0" && (nonspace "x" && Str.all_chars nonspace ds) = true).
      by rewrite (all_chars_impl _ _ _ ishex_nonspace Hds). }
    rewrite (parse_c_value_strip _ ("0x" +:+ ds)).
    + change ("0x" +:+ ds) with (String "0" (String "x" ds)).
      rewrite parse_c_value_hex; eauto.
    + change ("0x" +:+ ds +:+ tail) with (("0x" +:+ ds) +:+ tail).
      by apply strip_tail.
    + by apply strip_nonspace.
  - assert (Str.all_chars nonspace ds = true) as Hns.
    { apply (all_chars_impl Char.ishex); [apply ishex_nonspace|].
      by apply (all_chars_impl Char.isdecimal); [apply isdecimal_ishex|]. }
    rewrite length_append in Hlen.
    rewrite (parse_c_value_strip _ ds).
    + rewrite parse_c_value_decimal; eauto. lia.
    + by apply strip_tail.
    + by apply strip_nonspace.
Qed.

(** ** The dictionary along the pairs yielded *)

Lemma assign_all_app s (out1 out2 : list (string * Z)) :
  assign_all s (out1 ++ out2) = assign_all (assign_all s out1) out2.
Proof. apply fold_left_app. Qed.

Lemma assign_all_keys s (out : list (string * Z)) k :
  is_Some (assign_all s out !! k) <-> is_Some (s !! k) \/ k ∈ map fst out.
Proof.
  revert s. induction out as [|[n v] out IH]; intros s; simpl.
  - split; [auto|]. intros [?|?%elem_of_nil]; done.
  - rewrite IH, lookup_insert_is_Some, elem_of_cons.
    destruct (decide (n = k)) as [->|Hne]; [by split; auto|].
    split.
    + intros [[?|[_ ?]]|?]; auto; congruence.
    + intros [?|[?|?]]; auto; congruence.
Qed.

Lemma assign_all_skip s (out : list (string * Z)) k :
  k ∉ map fst out -> assign_all s out !! k = s !! k.
Proof.
  revert s. induction out as [|[n v] out IH]; intros s; simpl; [done|].
  intros Hk. apply not_elem_of_cons in Hk as [Hne Hk].
  rewrite IH by done. by apply lookup_insert_ne.
Qed.

Lemma assign_all_last s (out : list (string * Z)) k :
  k ∈ map fst out ->
  exists pre v post,
    out = pre ++ (k, v) :: post /\ (k ∉ map fst post) /\ assign_all s out !! k = Some v.
Proof.
  induction out as [|[n v] out IH] using rev_ind; [by intros ?%elem_of_nil|].
  rewrite map_app, elem_of_app. simpl. intros Hk.
  destruct (decide (n = k)) as [->|Hne].
  - exists out, v, []. split; [done|]. split; [apply not_elem_of_nil|].
    rewrite assign_all_app. simpl. apply lookup_insert_eq.
  - destruct Hk as [Hk|Hk%list_elem_of_singleton]; [|done].
    destruct (IH Hk) as (pre & w & post & -> & Hpost & Hw).
    exists pre, w, (post ++ [(n, v)]). split; [by rewrite <- app_assoc|].
    split.
    + rewrite map_app, elem_of_app. simpl. intros [?|?%list_elem_of_singleton]; done.
    + rewrite assign_all_app. simpl. by rewrite lookup_insert_ne.
Qed.

(** ** One pass *)

Lemma attempt_fold (st : pass_state) (unresolved : list define) :
  fold_left attempt unresolved st
  = let '(res, left_over) := pass_result (symbols st) unresolved in
    {| symbols := assign_all (symbols st) (map pair_of res);
       yielded := yielded st ++ map pair_of res;
       still_unresolved := still_unresolved st ++ left_over |}.
Proof.
  revert st. induction unresolved as [|[n e] u IH]; intros st.
  - simpl. rewrite !app_nil_r. by destruct st.
  - cbn [fold_left pass_result]. rewrite IH. unfold attempt.
    rewrite evaluate_run. cbn [fst snd].
    destruct (expr_value e (symbols st)) as [v|]; cbn [symbols yielded still_unresolved].
    + destruct (pass_result _ u) as [res left_over]. simpl.
      by rewrite <- app_assoc.
    + destruct (pass_result _ u) as [res left_over].
      by rewrite <- app_assoc.
Qed.

Lemma run_pass_result symbols0 unresolved :
  run_pass symbols0 unresolved
  = {| symbols := assign_all symbols0 (map pair_of (pass_result symbols0 unresolved).1);
       yielded := map pair_of (pass_result symbols0 unresolved).1;
       still_unresolved := (pass_result symbols0 unresolved).2 |}.
Proof.
  unfold run_pass. rewrite attempt_fold. simpl.
  by destruct (pass_result symbols0 unresolved).
Qed.

Lemma pass_result_perm s u :
  u ≡ₚ map fst (pass_result s u).1 ++ (pass_result s u).2.
Proof.
  revert s. induction u as [|d u IH]; intros s; [done|]. simpl.
  destruct (expr_value (snd d) s) as [v|].
  - specialize (IH (<[d.1:=v]> s)). destruct (pass_result _ u) as [res lo]. simpl in *.
    by constructor.
  - specialize (IH s). destruct (pass_result _ u) as [res lo]. simpl in *.
    rewrite IH at 1. apply Permutation_middle.
Qed.

Lemma pass_result_values s u i d v :
  (pass_result s u).1 !! i = Some (d, v) ->
  expr_value (snd d) (assign_all s (map pair_of (take i (pass_result s u).1))) = Some v.
Proof.
  revert s i. induction u as [|d0 u IH]; intros s i; [done|]. simpl.
  destruct (expr_value (snd d0) s) as [v0|] eqn:E.
  - specialize (IH (<[d0.1:=v0]> s)). destruct (pass_result _ u) as [res lo]. simpl in *.
    destruct i as [|i]; simpl.
    + by intros [= <- <-].
    + apply IH.
  - specialize (IH s i). destruct (pass_result _ u) as [res lo]. apply IH.
Qed.

Lemma pass_result_length s u :
  length u = (length (pass_result s u).1 + length (pass_result s u).2)%nat.
Proof.
  rewrite (Permutation_length (pass_result_perm s u)), length_app, length_map. done.
Qed.

Lemma pass_result_none s u :
  (pass_result s u).1 = [] -> (pass_result s u).2 = u /\ Forall (fails s) u.
Proof.
  induction u as [|d u IH]; [done|]. simpl.
  destruct (expr_value (snd d) s) as [v0|] eqn:E.
  - clear IH. destruct (pass_result (<[d.1:=v0]> s) u). simpl. discriminate.
  - destruct (pass_result s u) as [res lo]. simpl in *.
    intros ->. destruct IH as [-> ?]; [done|]. split; [done|]. by constructor.
Qed.

(** ** The loop *)

Lemma resolve_loop_unfold fuel s0 u c :
  resolve_loop (S fuel) s0 u c
  = if bool_decide (u <> []) && negb (Nat.eqb (length u) c) then
      let '(res, left_over) := pass_result s0 u in
      match resolve_loop fuel (assign_all s0 (map pair_of res)) left_over (length u) with
      | Some r => Some {| passes := map pair_of res :: passes r;
                          final_symbols := final_symbols r;
                          reported := reported r |}
      | None => None
      end
    else Some {| passes := []; final_symbols := s0; reported := u |}.
Proof.
  cbn [resolve_loop]. rewrite run_pass_result. cbn [symbols yielded still_unresolved].
  by destruct (pass_result s0 u).
Qed.

Lemma resolve_loop_spec fuel : forall s0 u c r,
  resolve_loop fuel s0 u c = Some r ->
  (length u = c -> Forall (fails s0) u) ->
  exists res : list (define * Z),
    output r = map pair_of res
    /\ final_symbols r = assign_all s0 (map pair_of res)
    /\ u ≡ₚ map fst res ++ reported r
    /\ (forall i d v, res !! i = Some (d, v) ->
          expr_value (snd d) (assign_all s0 (map pair_of (take i res))) = Some v)
    /\ Forall (fails (final_symbols r)) (reported r).
Proof.
  induction fuel as [|fuel IH]; intros s0 u c r Hrun Hpre; [done|].
  rewrite resolve_loop_unfold in Hrun.
  destruct (bool_decide (u <> []) && negb (Nat.eqb (length u) c)) eqn:Hcond.
  - pose proof (pass_result_perm s0 u) as Hperm.
    pose proof (pass_result_values s0 u) as Hvals.
    pose proof (pass_result_none s0 u) as Hnone.
    pose proof (pass_result_length s0 u) as Hlen.
    destruct (pass_result s0 u) as [res1 lo]. cbn [fst snd] in *.
    destruct (resolve_loop fuel _ lo (length u)) as [r'|] eqn:Hrec; [|done].
    injection Hrun as <-.
    destruct (IH _ _ _ _ Hrec) as (res2 & Hout & Hfin & Hperm2 & Hvals2 & Hrep).
    { intros Hsame. assert (res1 = []) as -> by (destruct res1; [done|exfalso; simpl in *; lia]).
      destruct Hnone as [-> Hfails]; done. }
    exists (res1 ++ res2). cbn [passes final_symbols reported].
    split; [|split; [|split; [|split]]].
    + unfold output in *. cbn [passes concat]. by rewrite Hout, map_app.
    + by rewrite Hfin, map_app, assign_all_app.
    + rewrite Hperm, Hperm2, map_app, <- !app_assoc. done.
    + intros i d v Hi. destruct (decide (i < length res1)%nat) as [Hlt|Hge].
      * rewrite lookup_app_l in Hi by done.
        rewrite take_app_le by lia. by apply Hvals.
      * assert (length res1 <= i)%nat as Hle by lia.
        rewrite (lookup_app_r _ _ _ Hle) in Hi.
        rewrite (take_app_ge _ _ _ Hle), map_app, assign_all_app.
        by apply Hvals2.
    + done.
  - injection Hrun as <-. exists []. cbn [passes final_symbols reported].
    split; [done|]. split; [done|]. split; [done|]. split; [done|].
    apply andb_false_iff in Hcond as [Hnil|Heq].
    + apply bool_decide_eq_false in Hnil.
      destruct u; [constructor|]. by destruct Hnil.
    + apply Hpre. apply Nat.eqb_eq. by destruct (Nat.eqb (length u) c).
Qed.

Lemma resolve_loop_exit fuel s0 u c :
  bool_decide (u <> []) && negb (Nat.eqb (length u) c) = false ->
  resolve_loop (S fuel) s0 u c = Some {| passes := []; final_symbols := s0; reported := u |}.
Proof. intros H. by rewrite resolve_loop_unfold, H. Qed.

Lemma resolve_loop_terminates fuel : forall s0 u c,
  (length u < fuel)%nat -> is_Some (resolve_loop fuel s0 u c).
Proof.
  induction fuel as [|fuel IH]; intros s0 u c Hfuel; [lia|].
  rewrite resolve_loop_unfold.
  destruct (bool_decide (u <> []) && negb (Nat.eqb (length u) c)) eqn:Hcond; [|eauto].
  pose proof (pass_result_length s0 u) as Hlen.
  destruct (pass_result s0 u) as [res lo]. cbn [fst snd] in Hlen.
  assert (is_Some (resolve_loop fuel (assign_all s0 (map pair_of res)) lo (length u)))
    as [r ->]; [|eauto].
  destruct (decide (length lo = length u)) as [Heq|Hne].
  - apply andb_prop in Hcond as [Hnil _]. apply bool_decide_eq_true in Hnil.
    destruct fuel as [|fuel]; [destruct u; [done|simpl in Hfuel; lia]|].
    rewrite resolve_loop_exit; [eauto|].
    rewrite Heq, Nat.eqb_refl. apply andb_false_r.
  - apply IH. lia.
Qed.

Lemma resolve_loop_fuel fuel : forall fuel' s0 u c r,
  resolve_loop fuel s0 u c = Some r -> (fuel <= fuel')%nat ->
  resolve_loop fuel' s0 u c = Some r.
Proof.
  induction fuel as [|fuel IH]; intros fuel' s0 u c r Hrun Hle; [done|].
  destruct fuel' as [|fuel']; [lia|].
  rewrite resolve_loop_unfold in *.
  destruct (bool_decide (u <> []) && negb (Nat.eqb (length u) c)); [|done].
  destruct (pass_result s0 u) as [res lo].
  destruct (resolve_loop fuel _ lo (length u)) as [r'|] eqn:Hrec; [|done].
  rewrite (IH fuel' _ _ _ _ Hrec) by lia. done.
Qed.

Lemma resolve_loop_passes fuel : forall s0 u c r,
  resolve_loop fuel s0 u c = Some r ->
  if bool_decide (u <> []) && negb (Nat.eqb (length u) c)
  then loop_passes (length u) (passes r) (length (reported r))
  else passes r = [] /\ reported r = u.
Proof.
  induction fuel as [|fuel IH]; intros s0 u c r Hrun; [done|].
  rewrite resolve_loop_unfold in Hrun.
  destruct (bool_decide (u <> []) && negb (Nat.eqb (length u) c)) eqn:Hcond;
    [|by injection Hrun as <-].
  apply andb_prop in Hcond as [Hnil _]. apply bool_decide_eq_true in Hnil.
  pose proof (pass_result_length s0 u) as Hlen.
  pose proof (pass_result_none s0 u) as Hnone.
  destruct (pass_result s0 u) as [res lo]. cbn [fst snd] in Hlen, Hnone.
  destruct (resolve_loop fuel _ lo (length u)) as [r'|] eqn:Hrec; [|done].
  injection Hrun as <-. cbn [passes reported].
  apply IH in Hrec.
  destruct (bool_decide (lo <> []) && negb (Nat.eqb (length lo) (length u))) eqn:Hnext.
  - apply andb_prop in Hnext as [_ Hne]. apply negb_true_iff, Nat.eqb_neq in Hne.
    apply passes_progress.
    + intros Hres. destruct res; [simpl in Hlen; lia|done].
    + rewrite length_map. lia.
    + rewrite length_map. by replace (length u - length res)%nat with (length lo) by lia.
  - destruct Hrec as [-> ->]. apply andb_false_iff in Hnext as [Hlo|Heq].
    + apply bool_decide_eq_false in Hlo.
      assert (lo = []) as -> by (destruct lo; [done|by destruct Hlo]).
      simpl in Hlen. apply passes_progress.
      * intros Hres. destruct res; [|done]. destruct u; [done|simpl in Hlen; lia].
      * rewrite length_map. lia.
      * rewrite length_map. replace (length u - length res)%nat with 0%nat by lia.
        constructor.
    + apply negb_false_iff, Nat.eqb_eq in Heq.
      assert (res = []) as -> by (destruct res; [done|exfalso; simpl in Hlen; lia]).
      destruct Hnone as [-> _]; [done|]. simpl. apply passes_stuck.
      destruct u; [done|simpl; lia].
Qed.

Lemma loop_passes_length n ps m : loop_passes n ps m -> (length ps <= n)%nat.
Proof. induction 1; simpl; try lia. destruct p; [done|simpl in *; lia]. Qed.

(** ** Termination of the resolver *)

(** The run exists, and it is the same with every larger bound on the
    number of evaluations of the loop condition. *)
Lemma resolve_dependencies_runs (defines : list define) :
  exists r : run,
    resolve_dependencies defines = Some r
    /\ forall extra : nat,
         resolve_loop (S (length defines) + extra) ∅ defines 0 = Some r.
Proof.
  destruct (resolve_loop_terminates (S (length defines)) ∅ defines 0) as [r Hr]; [lia|].
  exists r. split; [exact Hr|].
  intros extra. apply (resolve_loop_fuel _ _ _ _ _ _ Hr). lia.
Qed.

(** C7.  The loop of [resolve_dependencies] terminates on every list of
    records: the bound of the model is never reached, and a larger bound
    gives the same run.  The loop stops exactly after a pass that resolved
    nothing or when no record is left ([loop_passes]), so at most
    [length defines + 1] passes are executed. *)
Theorem resolve_dependencies_terminates (defines : list define) :
  exists r : run,
    resolve_dependencies defines = Some r
    /\ loop_passes (length defines) (passes r) (length (reported r))
    /\ (length (passes r) <= length defines + 1)%nat
    /\ forall extra : nat,
         resolve_loop (S (length defines) + extra) ∅ defines 0 = Some r.
Proof.
  destruct (resolve_loop_terminates (S (length defines)) ∅ defines 0) as [r Hr]; [lia|].
  exists r. split; [exact Hr|].
  assert (loop_passes (length defines) (passes r) (length (reported r))) as Hshape.
  { pose proof (resolve_loop_passes _ _ _ _ _ Hr) as H.
    destruct defines as [|d defines].
    - destruct H as [-> ->]. constructor.
    - exact H. }
  split; [exact Hshape|]. split.
  - apply loop_passes_length in Hshape. lia.
  - intros extra. apply (resolve_loop_fuel _ _ _ _ _ _ Hr). lia.
Qed.

(** ** Order of the pairs and unresolved records *)

Lemma symbols_after_take_keys (res : list (define * Z)) i j m :
  (j <= i)%nat ->
  is_Some (symbols_after (map pair_of (take j res)) !! m) ->
  is_Some (symbols_after (map pair_of (take i res)) !! m).
Proof.
  unfold symbols_after. rewrite !assign_all_keys, !lookup_empty.
  intros Hle [Hn|Hm]; [by apply is_Some_None in Hn|]. right.
  replace (take j res) with (take j (take i res)) in Hm
    by (rewrite take_take; f_equal; lia).
  apply list_elem_of_fmap in Hm as (p & -> & Hp).
  apply list_elem_of_fmap in Hp as (rv & -> & Hrv).
  apply list_elem_of_fmap. exists (pair_of rv). split; [done|].
  apply list_elem_of_fmap. exists rv. split; [done|]. by apply (subseteq_take j).
Qed.

Lemma symbols_after_key_yielded (res : list (define * Z)) i m :
  is_Some (symbols_after (map pair_of (take i res)) !! m) ->
  exists j d v, (j < i)%nat /\ res !! j = Some (d, v) /\ fst d = m.
Proof.
  unfold symbols_after. rewrite assign_all_keys, lookup_empty.
  intros [Hn|Hm]; [by apply is_Some_None in Hn|].
  apply list_elem_of_fmap in Hm as (p & -> & Hp).
  apply list_elem_of_fmap in Hp as ([d v] & -> & Hrv).
  apply list_elem_of_lookup in Hrv as [j Hj].
  apply lookup_take_Some in Hj as [Hj Hlt]. by exists j, d, v.
Qed.

Lemma tdep_yielded_before (res : list (define * Z)) :
  (forall i d v, res !! i = Some (d, v) ->
     expr_value (snd d) (symbols_after (map pair_of (take i res))) = Some v) ->
  forall i m, tdep res i m ->
    is_Some (symbols_after (map pair_of (take i res)) !! m).
Proof.
  intros Hvals i m Hdep. induction Hdep as [i d v m Hi Hm|i d v m' j d' v' m Hi Hm' Hlt Hj Hname _ IH].
  - eapply expr_value_names; [by apply Hvals|done].
  - apply (symbols_after_take_keys res i j); [lia|done].
Qed.

Lemma filter_all {A} (P : A -> Prop) `{!forall x, Decision (P x)} (l : list A) :
  Forall P l -> filter P l = l.
Proof.
  induction 1 as [|x l Hx _ IH]; [done|]. by rewrite filter_cons_True, IH.
Qed.

Lemma filter_none {A} (P : A -> Prop) `{!forall x, Decision (P x)} (l : list A) :
  Forall (fun x => ~ P x) l -> filter P l = [].
Proof.
  induction 1 as [|x l Hx _ IH]; [done|]. by rewrite filter_cons_False.
Qed.

Lemma pass_result_sublists s u :
  map fst (pass_result s u).1 `sublist_of` u /\ (pass_result s u).2 `sublist_of` u.
Proof.
  revert s. induction u as [|d u IH]; intros s; [split; constructor|].
  cbn [pass_result]. destruct (expr_value (snd d) s) as [v|].
  - destruct (IH (<[d.1:=v]> s)) as [H1 H2].
    destruct (pass_result (<[d.1:=v]> s) u) as [res lo]. cbn [fst snd map] in *.
    split; [by apply sublist_skip|by apply sublist_cons].
  - destruct (IH s) as [H1 H2].
    destruct (pass_result s u) as [res lo]. cbn [fst snd map] in *.
    split; [by apply sublist_cons|by apply sublist_skip].
Qed.

Lemma resolve_loop_sublists fuel : forall s0 u c r,
  resolve_loop fuel s0 u c = Some r ->
  reported r `sublist_of` u
  /\ Forall (fun p => exists recs : list define,
                recs `sublist_of` u /\ map fst recs = map fst p) (passes r).
Proof.
  induction fuel as [|fuel IH]; intros s0 u c r Hrun; [done|].
  rewrite resolve_loop_unfold in Hrun.
  destruct (bool_decide (u <> []) && negb (Nat.eqb (length u) c)).
  - destruct (pass_result_sublists s0 u) as [H1 H2].
    destruct (pass_result s0 u) as [res lo]. cbn [fst snd] in *.
    destruct (resolve_loop fuel _ lo (length u)) as [r'|] eqn:Hrec; [|done].
    injection Hrun as <-. cbn [reported passes].
    destruct (IH _ _ _ _ Hrec) as [Hrep Hpasses]. split; [by etrans|].
    constructor.
    + exists (map fst res). split; [done|]. rewrite !map_map. by apply map_ext.
    + eapply Forall_impl; [exact Hpasses|]. intros p (recs & Hsub & Hnames).
      exists recs. split; [by etrans|done].
  - injection Hrun as <-. split; [done|constructor].
Qed.

Lemma sublist_filter_length {A} (P : A -> Prop) `{!forall x, Decision (P x)} (l1 l2 : list A) :
  l1 `sublist_of` l2 -> Forall P l1 -> (length l1 <= length (filter P l2))%nat.
Proof.
  induction 1 as [|x l1 l2 _ IH|x l1 l2 _ IH]; intros Hall; [done|..].
  - apply Forall_cons in Hall as [Hx Hall]. rewrite filter_cons_True by done.
    cbn [length]. specialize (IH Hall). lia.
  - specialize (IH Hall). destruct (decide (P x)).
    + rewrite filter_cons_True by done. cbn [length]. lia.
    + by rewrite filter_cons_False.
Qed.

Lemma sublist_filter_eq {A} (P : A -> Prop) `{!forall x, Decision (P x)} (l1 l2 : list A) :
  l1 `sublist_of` l2 -> Forall P l1 ->
  (length (filter P l2) <= length l1)%nat -> l1 = filter P l2.
Proof.
  induction 1 as [|x l1 l2 _ IH|x l1 l2 Hsub IH]; intros Hall Hlen; [done|..].
  - apply Forall_cons in Hall as [Hx Hall]. rewrite filter_cons_True in * by done.
    cbn [length] in Hlen. f_equal. apply IH; [done|lia].
  - destruct (decide (P x)).
    + rewrite filter_cons_True in Hlen by done. cbn [length] in Hlen.
      pose proof (sublist_filter_length P l1 l2 Hsub Hall). lia.
    + rewrite filter_cons_False in * by done. by apply IH.
Qed.

Lemma resolve_dependencies_spec defines r :
  resolve_dependencies defines = Some r ->
  exists res : list (define * Z),
    output r = map pair_of res
    /\ final_symbols r = symbols_after (output r)
    /\ defines ≡ₚ map fst res ++ reported r
    /\ (forall i d v, res !! i = Some (d, v) ->
          expr_value (snd d) (symbols_after (map pair_of (take i res))) = Some v)
    /\ Forall (fails (final_symbols r)) (reported r).
Proof.
  intros Hrun. apply resolve_loop_spec in Hrun as (res & Hout & Hfin & Hperm & Hvals & Hrep).
  - exists res. rewrite Hout. auto.
  - intros Hlen. destruct defines; [constructor|done].
Qed.

Lemma resolved_succeeds_at_end (res : list (define * Z)) d :
  (forall i d v, res !! i = Some (d, v) ->
     expr_value (snd d) (symbols_after (map pair_of (take i res))) = Some v) ->
  d ∈ map fst res ->
  is_Some (expr_value (snd d) (symbols_after (map pair_of res))).
Proof.
  intros Hvals Hd. apply list_elem_of_fmap in Hd as ([d' v] & -> & Hrv).
  apply list_elem_of_lookup in Hrv as [i Hi].
  apply (expr_value_mono _ (symbols_after (map pair_of (take i res)))).
  - intros k Hk. rewrite <- (firstn_all res) at 1.
    apply (symbols_after_take_keys res (length res) i); [|done].
    apply Nat.lt_le_incl. by eapply lookup_lt_Some.
  - cbn [fst]. rewrite (Hvals _ _ _ Hi). eauto.
Qed.

(** The records reported are, in the order of the input, those that fail
    with the final dictionary. *)
Lemma reported_filter defines r :
  resolve_dependencies defines = Some r ->
  reported r = filter (fails (final_symbols r)) defines.
Proof.
  intros Hrun.
  destruct (resolve_dependencies_spec _ _ Hrun) as (res & Hout & Hfin & Hperm & Hvals & Hrep).
  destruct (resolve_loop_sublists _ _ _ _ _ Hrun) as [Hsub _].
  apply sublist_filter_eq; [done..|].
  rewrite Hperm, filter_app, (filter_all _ _ Hrep), filter_none; [done|].
  apply Forall_forall. intros d Hd.
  apply (resolved_succeeds_at_end res d Hvals) in Hd as [v Hv].
  unfold fails. rewrite Hfin, Hout. congruence.
Qed.

(** C1.  [resolve_dependencies] has a run on every list of records, the same
    with every larger bound on the number of evaluations of the loop
    condition.  In it each pair is yielded for a record of the input whose
    expression evaluates with the dictionary of that moment; every name on
    which that evaluation depends, directly or through the pairs it read
    ([tdep]), is then a key of the dictionary and the name of a pair yielded
    earlier.  Every record of the input is either resolved or reported; the
    reported records are those whose expression cannot be evaluated even with
    the final dictionary, none of them is among the resolved ones, and the
    error stream holds the lines of exactly these records, in the order of
    the input. *)
Theorem resolve_dependencies_order (defines : list define) :
  exists r : run,
    resolve_dependencies defines = Some r
    /\ (forall extra : nat,
          resolve_loop (S (length defines) + extra) ∅ defines 0 = Some r)
    /\ exists res : list (define * Z),
         output r = map pair_of res
         /\ defines ≡ₚ map fst res ++ reported r
         /\ (forall i d v, res !! i = Some (d, v) ->
               fst (evaluate (snd d) (symbols_after (take i (output r)))) = Some v)
         /\ (forall i m, tdep res i m ->
               is_Some (symbols_after (take i (output r)) !! m)
               /\ exists j w, (j < i)%nat /\ output r !! j = Some (m, w))
         /\ (forall d, d ∈ defines ->
               (d ∈ reported r) <-> fst (evaluate (snd d) (final_symbols r)) = None)
         /\ (forall d, d ∈ reported r -> d ∉ map fst res)
         /\ stderr r = map error_line (filter (fails (final_symbols r)) defines).
Proof.
  destruct (resolve_dependencies_runs defines) as (r & Hrun & Hfuel).
  exists r. split; [exact Hrun|]. split; [exact Hfuel|].
  destruct (resolve_dependencies_spec _ _ Hrun) as (res & Hout & Hfin & Hperm & Hvals & Hrep).
  exists res. split; [done|]. split; [done|].
  assert (forall i, take i (output r) = map pair_of (take i res)) as Htake.
  { intros i. by rewrite Hout, <- fmap_take. }
  assert (forall d, d ∈ reported r -> d ∉ map fst res) as Hnot.
  { intros d Hd Hres. rewrite Forall_forall in Hrep. specialize (Hrep d Hd).
    apply (resolved_succeeds_at_end res d Hvals) in Hres as [v Hv].
    unfold fails in Hrep. rewrite Hfin, Hout in Hrep. congruence. }
  split; [|split; [|split; [|split]]].
  - intros i d v Hi. rewrite evaluate_run, Htake. by apply Hvals.
  - intros i m Hdep. rewrite Htake.
    pose proof (tdep_yielded_before res Hvals i m Hdep) as Hkey.
    split; [done|].
    destruct (symbols_after_key_yielded res i m Hkey) as (j & d & v & Hlt & Hj & Hname).
    exists j, v. split; [done|]. rewrite Hout.
    change (map pair_of res) with (pair_of <$> res).
    rewrite list_lookup_fmap, Hj. simpl. unfold pair_of. simpl. by rewrite Hname.
  - intros d Hd. rewrite evaluate_run. cbn [fst]. split.
    + intros Hin. rewrite Forall_forall in Hrep. by apply Hrep.
    + intros Hfail. rewrite Hperm in Hd. apply elem_of_app in Hd as [Hres|?]; [|done].
      apply (resolved_succeeds_at_end res d Hvals) in Hres as [v Hv].
      rewrite Hfin, Hout in Hfail. congruence.
  - exact Hnot.
  - unfold stderr. by rewrite (reported_filter defines r Hrun).
Qed.

(** ** Growth of the dictionary *)

Lemma after_key_yielded (out : list (string * Z)) i k :
  is_Some (symbols_after (take i out) !! k) ->
  exists j w, (j < i)%nat /\ out !! j = Some (k, w).
Proof.
  unfold symbols_after. rewrite assign_all_keys, lookup_empty.
  intros [Hn|Hm]; [by apply is_Some_None in Hn|].
  apply list_elem_of_fmap in Hm as ([k' w] & -> & Hp).
  apply list_elem_of_lookup in Hp as [j Hj].
  apply lookup_take_Some in Hj as [Hj Hlt]. by exists j, w.
Qed.

Lemma after_keys_grow (out : list (string * Z)) i j k :
  (i <= j)%nat ->
  is_Some (symbols_after (take i out) !! k) ->
  is_Some (symbols_after (take j out) !! k).
Proof.
  intros Hle Hk. destruct (after_key_yielded _ _ _ Hk) as (n & w & Hlt & Hn).
  unfold symbols_after. rewrite assign_all_keys. right.
  apply list_elem_of_fmap. exists (k, w). split; [done|].
  apply list_elem_of_lookup. exists n. apply lookup_take_Some. split; [done|lia].
Qed.

Lemma after_step (out : list (string * Z)) i k v :
  symbols_after (take i out) !! k = Some v ->
  symbols_after (take (S i) out) !! k = Some v \/ exists w, out !! i = Some (k, w).
Proof.
  intros Hk. destruct (out !! i) as [[n w]|] eqn:Hi.
  - rewrite (take_S_r _ _ _ Hi). unfold symbols_after. rewrite assign_all_app. simpl.
    destruct (decide (n = k)) as [->|Hne]; [right; eauto|].
    left. by rewrite lookup_insert_ne.
  - left. apply lookup_ge_None in Hi.
    by rewrite take_ge in * by lia.
Qed.

Lemma output_names_nodup defines r (res : list (define * Z)) :
  output r = map pair_of res ->
  defines ≡ₚ map fst res ++ reported r ->
  NoDup (map fst defines) -> NoDup (map fst (output r)).
Proof.
  intros Hout Hperm Hnd. rewrite Hperm, map_app in Hnd.
  apply NoDup_app in Hnd as [Hnd _].
  rewrite Hout, map_map. rewrite map_map in Hnd. exact Hnd.
Qed.

(** C6, the claim as stated, is false: in the run on two records named [A]
    the entry of [A] is set to 1 and then overwritten with 2. *)
Lemma duplicate_name_overwrites : ~ never_overwritten [("A", "1"); ("A", "2")].
Proof.
  intros H.
  specialize (H {| passes := [[("A", 1); ("A", 2)]];
                   final_symbols := {[ "A" := 2 ]};
                   reported := [] |} eq_refl 1%nat 2%nat "A" 1).
  vm_compute in H. specialize (H (le_S _ _ (le_n _)) eq_refl). discriminate H.
Qed.

(** C6, amended.  Along a run the set of keys of the dictionary only grows,
    and the dictionary at the end is the one built by the pairs yielded.  The
    value under a key changes only when a pair with that very name is
    yielded; when the names of the input records are pairwise distinct no
    entry is ever overwritten.  Every record is resolved at most once: the
    pairs yielded and the records reported add up to the input. *)
Theorem symbols_only_grow (defines : list define) (r : run) :
  resolve_dependencies defines = Some r ->
  final_symbols r = symbols_after (output r)
  /\ (forall (i j : nat) k, (i <= j)%nat ->
        is_Some (symbols_after (take i (output r)) !! k) ->
        is_Some (symbols_after (take j (output r)) !! k))
  /\ (forall (i : nat) k v,
        symbols_after (take i (output r)) !! k = Some v ->
        symbols_after (take (S i) (output r)) !! k = Some v
        \/ exists w, output r !! i = Some (k, w))
  /\ (NoDup (map fst defines) ->
      forall (i j : nat) k v, (i <= j)%nat ->
        symbols_after (take i (output r)) !! k = Some v ->
        symbols_after (take j (output r)) !! k = Some v)
  /\ (length (output r) + length (reported r) = length defines)%nat.
Proof.
  intros Hrun.
  destruct (resolve_dependencies_spec _ _ Hrun) as (res & Hout & Hfin & Hperm & _ & _).
  split; [done|]. split; [intros; by eapply after_keys_grow|].
  split; [intros; by apply after_step|]. split.
  - intros Hnd i j k v Hle Hk.
    pose proof (output_names_nodup _ _ _ Hout Hperm Hnd) as Hnames.
    replace j with (i + (j - i))%nat by lia. generalize (j - i)%nat as n.
    induction n as [|n IH]; [by rewrite Nat.add_0_r|].
    rewrite Nat.add_succ_r.
    destruct (after_step _ _ _ _ IH) as [?|[w Hw]]; [done|]. exfalso.
    destruct (after_key_yielded (output r) i k) as (j0 & w0 & Hlt & Hj0); [eauto|].
    assert (j0 = (i + n)%nat); [|lia].
    apply (NoDup_lookup _ _ _ k Hnames).
    + change (map fst (output r)) with (fst <$> output r).
      by rewrite list_lookup_fmap, Hj0.
    + change (map fst (output r)) with (fst <$> output r).
      by rewrite list_lookup_fmap, Hw.
  - rewrite (Permutation_length Hperm), length_app, Hout, !length_map. done.
Qed.

(** ** Records with the same name *)



(** ** A failed evaluation *)

(** C10.  [evaluate] and [evaluate_operand] hand the dictionary back as they
    received it.  When the evaluation of a record raises [ValueError] in a
    pass, the attempt leaves the dictionary and the pairs yielded so far as
    they were and appends the record, with its name and expression, to
    [still_unresolved]; the record is in the list that the pass hands to the
    next evaluation of the loop condition. *)
Theorem failed_evaluation_keeps_state (symbols0 : gmap string Z)
    (before after : list define) (const_name value_expr : string) :
  let st := run_pass symbols0 before in
  let unresolved := before ++ (const_name, value_expr) :: after in
  fst (evaluate value_expr (symbols st)) = None ->
  (forall expr s, snd (evaluate expr s) = s)
  /\ (forall operand s, snd (evaluate_operand operand s) = s)
  /\ attempt st (const_name, value_expr)
     = {| symbols := symbols st;
          yielded := yielded st;
          still_unresolved := still_unresolved st ++ [(const_name, value_expr)] |}
  /\ (const_name, value_expr) ∈ still_unresolved (run_pass symbols0 unresolved)
  /\ forall fuel c,
       bool_decide (unresolved <> []) && negb (Nat.eqb (length unresolved) c) = true ->
       exists next,
         (const_name, value_expr) ∈ next
         /\ resolve_loop (S fuel) symbols0 unresolved c
            = match resolve_loop fuel (symbols (run_pass symbols0 unresolved)) next
                      (length unresolved) with
              | Some r => Some {| passes := yielded (run_pass symbols0 unresolved) :: passes r;
                                  final_symbols := final_symbols r;
                                  reported := reported r |}
              | None => None
              end.
Proof.
  intros st unresolved Hfail.
  assert (attempt st (const_name, value_expr)
          = {| symbols := symbols st; yielded := yielded st;
               still_unresolved := still_unresolved st ++ [(const_name, value_expr)] |}) as Hatt.
  { unfold attempt. rewrite evaluate_run in *. cbn [fst] in Hfail. by rewrite Hfail. }
  assert ((const_name, value_expr) ∈ still_unresolved (run_pass symbols0 unresolved)) as Hin.
  { unfold unresolved, run_pass. rewrite fold_left_app. cbn [fold_left].
    fold (run_pass symbols0 before). fold st. rewrite Hatt, attempt_fold.
    cbn [symbols yielded still_unresolved].
    destruct (pass_result (symbols st) after) as [res lo]. cbn [still_unresolved].
    rewrite !elem_of_app, list_elem_of_singleton. auto. }
  split; [intros; by rewrite evaluate_run|].
  split; [intros; by rewrite evaluate_operand_run|].
  split; [done|]. split; [done|].
  intros fuel c Hcond. exists (still_unresolved (run_pass symbols0 unresolved)).
  split; [done|]. cbn [resolve_loop]. by rewrite Hcond.
Qed.

(** ** Two concrete inputs *)

(** C3.  Whatever the order in which the records [A = 0x10],
    [B = (A + 0x5)] and [C = (B - A)] are given, the run terminates, yields a
    pair for each of the three records, reports nothing, and ends with the
    dictionary that maps [A] to 16, [B] to 21 and [C] to 5. *)
Theorem three_defines_any_order (defines : list define) :
  [("A", "0x10"); ("B", "(A + 0x5)"); ("C", "(B - A)")] ≡ₚ defines ->
  exists r : run,
    resolve_dependencies defines = Some r
    /\ output r ≡ₚ [("A", 16); ("B", 21); ("C", 5)]
    /\ reported r = []
    /\ final_symbols r = {[ "A" := 16; "B" := 21; "C" := 5 ]}.
Proof.
  intros H. apply permutations_Permutation in H. vm_compute in H.
  repeat (apply elem_of_cons in H as [->|H]); [..|by apply elem_of_nil in H];
    (eexists; split; [vm_compute; reflexivity|]; cbn [output passes reported final_symbols];
     split; [apply (bool_decide_unpack _); vm_compute; exact I|];
     split; [reflexivity|]; vm_compute; reflexivity).
Qed.

(** C4.  On the two records [X = (Y + 1)] and [Y = (X + 1)], each of which
    needs the other, the generator yields no pair, and the two records are
    reported on the error stream, one line each, in the form
    [Error: Could not resolve NAME = EXPRESSION]. *)
Theorem circular_pair_reported :
  exists r : run,
    resolve_dependencies [("X", "(Y + 1)"); ("Y", "(X + 1)")] = Some r
    /\ output r = []
    /\ stderr r = ["Error: Could not resolve X = (Y + 1)";
                   "Error: Could not resolve Y = (X + 1)"].
Proof. eexists. split; [vm_compute; reflexivity|]. split; reflexivity. Qed.

(** ** Splitting a line *)

Lemma append_nil s : "" +:+ s = s.
Proof. reflexivity. Qed.

Lemma append_cons c s t : String c s +:+ t = String c (s +:+ t).
Proof. reflexivity. Qed.

Lemma lstrip_blank g s :
  Str.all_chars Char.isspace g = true -> Str.lstrip (g +:+ s) = Str.lstrip s.
Proof.
  induction g as [|c g IH]; [done|]. rewrite append_cons. simpl.
  intros [Hc Hg]%andb_prop. rewrite Hc. auto.
Qed.

Lemma lstrip_starts_nonspace s : starts_nonspace s = true -> Str.lstrip s = s.
Proof.
  destruct s as [|c s]; simpl; [done|]. unfold nonspace.
  by destruct (Char.isspace c).
Qed.

Lemma lstrip_split s :
  exists lead,
    s = lead +:+ Str.lstrip s
    /\ Str.all_chars Char.isspace lead = true
    /\ (Str.lstrip s = "" \/ starts_nonspace (Str.lstrip s) = true).
Proof.
  induction s as [|c s (lead & Hs & Hlead & Hrest)]; simpl.
  - exists "". auto.
  - destruct (Char.isspace c) eqn:Hc.
    + exists (String c lead). cbn [String.append Str.all_chars]. rewrite Hc.
      split; [|auto]. rewrite append_cons. congruence.
    + exists "". simpl. unfold nonspace. rewrite Hc. auto.
Qed.

Lemma break_space_word w s :
  Str.all_chars nonspace w = true ->
  s = "" \/ starts_nonspace s = false ->
  Str.break_space (w +:+ s) = (w, s).
Proof.
  intros Hw Hs. induction w as [|c w IH].
  - rewrite append_nil. destruct s as [|c s]; [done|]. simpl in *. unfold nonspace in Hs.
    destruct Hs as [|Hs]; [done|]. by destruct (Char.isspace c).
  - rewrite append_cons. simpl in *. apply andb_prop in Hw as [Hc Hw].
    unfold nonspace in Hc.
    destruct (Char.isspace c); [done|]. by rewrite (IH Hw).
Qed.

Lemma break_space_split s tok rest :
  Str.break_space s = (tok, rest) ->
  s = tok +:+ rest
  /\ Str.all_chars nonspace tok = true
  /\ (rest = "" \/ starts_nonspace rest = false).
Proof.
  revert tok rest. induction s as [|c s IH]; intros tok rest; simpl.
  - intros [= <- <-]. auto.
  - destruct (Char.isspace c) eqn:Hc.
    + intros [= <- <-]. rewrite append_nil. simpl. unfold nonspace. rewrite Hc. auto.
    + destruct (Str.break_space s) as [tok' rest']. intros [= <- <-].
      destruct (IH _ _ eq_refl) as (-> & Htok & Hrest).
      rewrite append_cons. simpl. unfold nonspace at 1. rewrite Hc. auto.
Qed.

Lemma blank_starts_space g s : blank g -> starts_nonspace (g +:+ s) = false.
Proof.
  intros [Hne Hg]. destruct g as [|c g]; [done|]. rewrite append_cons. simpl in *.
  apply andb_prop in Hg as [Hc _]. unfold nonspace. by rewrite Hc.
Qed.

Lemma word_starts_nonspace w s : word w -> starts_nonspace (w +:+ s) = true.
Proof.
  intros [Hne Hw]. destruct w as [|c w]; [done|]. rewrite append_cons. simpl in *.
  by apply andb_prop in Hw as [Hc _].
Qed.

Lemma starts_nonspace_nonempty s : starts_nonspace s = true -> s <> "".
Proof. by destruct s. Qed.

Lemma split_cons n s :
  Str.lstrip s <> "" ->
  Str.split (S n) s
  = (Str.break_space (Str.lstrip s)).1 :: Str.split n (Str.break_space (Str.lstrip s)).2.
Proof.
  intros Hne. cbn [Str.split]. destruct (Str.lstrip s) as [|c t] eqn:E; [done|].
  by destruct (Str.break_space (String c t)).
Qed.

Lemma split_zero s : Str.lstrip s <> "" -> Str.split 0 s = [Str.lstrip s].
Proof. intros Hne. cbn [Str.split]. by destruct (Str.lstrip s). Qed.

Lemma split_empty n s : Str.lstrip s = "" -> Str.split n s = [].
Proof. intros He. destruct n; cbn [Str.split]; by rewrite He. Qed.

Lemma split_three line kw name rest :
  splits_in_three line kw name rest -> Str.split 2 line = [kw; name; rest].
Proof.
  intros (gap1 & gap2 & -> & Hkw & Hg1 & Hname & Hg2 & Hrest).
  pose proof (word_starts_nonspace kw (gap1 +:+ name +:+ gap2 +:+ rest) Hkw) as H1.
  pose proof (word_starts_nonspace name (gap2 +:+ rest) Hname) as H2.
  rewrite split_cons; rewrite (lstrip_starts_nonspace _ H1);
    [|by apply starts_nonspace_nonempty].
  rewrite break_space_word; [|apply Hkw|right; by apply blank_starts_space].
  cbn [fst snd].
  rewrite split_cons; rewrite lstrip_blank by apply Hg1;
    rewrite (lstrip_starts_nonspace _ H2); [|by apply starts_nonspace_nonempty].
  rewrite break_space_word; [|apply Hname|right; by apply blank_starts_space].
  cbn [fst snd].
  rewrite split_zero; rewrite lstrip_blank by apply Hg2;
    rewrite (lstrip_starts_nonspace _ Hrest); [done|by apply starts_nonspace_nonempty].
Qed.

Lemma gap_then_text r :
  r = "" \/ starts_nonspace r = false ->
  Str.lstrip r <> "" ->
  exists gap,
    r = gap +:+ Str.lstrip r /\ blank gap /\ starts_nonspace (Str.lstrip r) = true.
Proof.
  intros Hr Hne. destruct (lstrip_split r) as (gap & Heq & Hgap & Hrest).
  destruct Hrest as [?|Hrest]; [done|].
  exists gap. split; [done|]. split; [|done]. split; [|done].
  intros ->. rewrite append_nil in Heq. rewrite <- Heq in Hrest.
  destruct Hr as [->|Hr]; [done|congruence].
Qed.

Lemma word_then_rest t :
  starts_nonspace t = true ->
  exists w r,
    Str.break_space t = (w, r) /\ t = w +:+ r /\ word w
    /\ (r = "" \/ starts_nonspace r = false).
Proof.
  intros Ht. destruct (Str.break_space t) as [w r] eqn:E.
  destruct (break_space_split _ _ _ E) as (Heq & Hw & Hr).
  exists w, r. split; [done|]. split; [done|]. split; [|done]. split; [|done].
  intros ->. rewrite append_nil in Heq. subst r.
  destruct Hr as [->|Hr]; [done|congruence].
Qed.

Lemma split_three_inv s kw name rest tl :
  starts_nonspace s = true ->
  Str.split 2 s = kw :: name :: rest :: tl ->
  tl = [] /\ splits_in_three s kw name rest.
Proof.
  intros Hs Hsplit.
  rewrite split_cons in Hsplit;
    rewrite (lstrip_starts_nonspace _ Hs) in *; [|by apply starts_nonspace_nonempty].
  destruct (word_then_rest s Hs) as (w1 & r1 & E1 & Heq1 & Hw1 & Hr1).
  rewrite E1 in Hsplit. cbn [fst snd] in Hsplit.
  remember (Str.split 1 r1) as l1 eqn:El1. injection Hsplit as <- ->. symmetry in El1.
  destruct (decide (Str.lstrip r1 = "")) as [He|Hne1];
    [by rewrite split_empty in El1|].
  destruct (gap_then_text r1 Hr1 Hne1) as (gap1 & Hg1eq & Hgap1 & Ht1).
  rewrite split_cons in El1 by done.
  destruct (word_then_rest _ Ht1) as (w2 & r2 & E2 & Heq2 & Hw2 & Hr2).
  rewrite E2 in El1. cbn [fst snd] in El1.
  remember (Str.split 0 r2) as l2 eqn:El2. injection El1 as <- ->. symmetry in El2.
  destruct (decide (Str.lstrip r2 = "")) as [He|Hne2];
    [by rewrite split_empty in El2|].
  destruct (gap_then_text r2 Hr2 Hne2) as (gap2 & Hg2eq & Hgap2 & Ht2).
  rewrite split_zero in El2 by done. injection El2 as <- <-.
  split; [done|]. exists gap1, gap2.
  split; [|done]. rewrite Heq1 at 1. f_equal. rewrite Hg1eq at 1. f_equal.
  rewrite Heq2 at 1. f_equal. done.
Qed.

Lemma lstrip_strip s :
  Str.strip s = "" \/ starts_nonspace (Str.strip s) = true.
Proof.
  unfold Str.strip. destruct (lstrip_split s) as (lead & _ & _ & Hy).
  destruct (Str.lstrip s) as [|c y]; [by left|].
  destruct Hy as [?|Hy]; [done|]. right. simpl in *.
  unfold nonspace in Hy. destruct (Char.isspace c) eqn:Hc; [done|].
  destruct (Str.rstrip y); simpl; unfold nonspace; by rewrite Hc.
Qed.

(** ** The extractor *)

Lemma wanted_iff name :
  wanted name = true <->
  name = "THIRD_PARTY_EVENT_ID_MIN"
  \/ Str.startswith name "EVT_" = true
  \/ Str.startswith name "CDU_EVT_OFFSET_" = true.
Proof.
  unfold wanted. rewrite !orb_true_iff, String.eqb_eq. tauto.
Qed.

Lemma extract_line_Some line d :
  extract_line line = Some d <->
  exists kw name rest,
    Str.startswith (Str.strip line) "#define" = true
    /\ splits_in_three (Str.strip line) kw name rest
    /\ wanted name = true
    /\ d = (name, Str.strip (Re.sub_comment rest)).
Proof.
  unfold extract_line. split.
  - destruct (Str.startswith (Str.strip line) "#define") eqn:Hstart; [|done].
    destruct (Str.split 2 (Str.strip line)) as [|kw [|name [|rest tl]]] eqn:Hsplit; try done.
    destruct (wanted name) eqn:Hwanted; [|done]. intros [= <-].
    exists kw, name, rest. split; [done|]. split; [|done].
    destruct (lstrip_strip line) as [He|Hns].
    + rewrite He in Hstart. discriminate Hstart.
    + by destruct (split_three_inv _ _ _ _ _ Hns Hsplit).
  - intros (kw & name & rest & Hstart & Hthree & Hwanted & ->).
    by rewrite Hstart, (split_three _ _ _ _ Hthree), Hwanted.
Qed.

Lemma extract_defines_fold lines acc :
  fold_left
    (fun defines line =>
       match extract_line line with
       | Some d => defines ++ [d]
       | None => defines
       end) lines acc
  = acc ++ omap extract_line lines.
Proof.
  revert acc. induction lines as [|line lines IH]; intros acc; simpl.
  - by rewrite app_nil_r.
  - rewrite IH. destruct (extract_line line); [|done]. by rewrite <- app_assoc.
Qed.

(** C5.  A line yields a record exactly when, once stripped, it starts with
    [#define], consists of a first word, a gap of whitespace, the name, a gap
    of whitespace and a remainder that is kept whole, and the name is
    [THIRD_PARTY_EVENT_ID_MIN] or starts with [EVT_] or with
    [CDU_EVT_OFFSET_]; the record is then the name with the remainder after
    the removal of a comment.  The records of a file are those of its lines,
    in the order of the lines; the other lines contribute nothing. *)
Theorem extract_line_selects :
  (forall line d,
     extract_line line = Some d <->
     exists kw name rest,
       Str.startswith (Str.strip line) "#define" = true
       /\ splits_in_three (Str.strip line) kw name rest
       /\ (name = "THIRD_PARTY_EVENT_ID_MIN"
           \/ Str.startswith name "EVT_" = true
           \/ Str.startswith name "CDU_EVT_OFFSET_" = true)
       /\ d = (name, Str.strip (Re.sub_comment rest)))
  /\ (forall lines,
        extract_defines_from_header lines = omap extract_line lines).
Proof.
  split.
  - intros line d. rewrite extract_line_Some.
    split; intros (kw & name & rest & H1 & H2 & H3 & H4); exists kw, name, rest;
      (split; [done|]; split; [done|]; split; [by apply wanted_iff|done]).
  - intros lines. unfold extract_defines_from_header. apply extract_defines_fold.
Qed.

(** The first token is never compared with the keyword: a line whose first
    token only begins with [#define] yields a record, although the keyword is
    not one of its tokens. *)
Lemma glued_keyword_extracted :
  extract_line "#defineX EVT_GLUED 4" = Some ("EVT_GLUED", "4")
  /\ ~ selected_by_keyword "#defineX EVT_GLUED 4".
Proof.
  split; [vm_compute; reflexivity|].
  intros (name & rest & Hthree & _).
  apply split_three in Hthree. vm_compute in Hthree. discriminate Hthree.
Qed.

Lemma star_to_end t :
  Str.all_chars Char.not_newline t = true ->
  Re.star Char.not_newline (Re.eol Some) t = Some "".
Proof.
  induction t as [|c t IH]; simpl; [done|].
  intros [Hc Ht]%andb_prop. by rewrite Hc, (IH Ht).
Qed.

Lemma sub_comment_before s :
  Str.all_chars Char.not_newline s = true ->
  Re.sub_comment s = Str.before s "//".
Proof.
  induction s as [|c s IH]; [done|].
  intros Hall. pose proof Hall as Hall'. simpl in Hall'.
  apply andb_prop in Hall' as [_ Hs].
  cbn [Re.sub_comment Str.before]. unfold Re.comment, Re.lit. cbn [Str.startswith].
  destruct (Ascii.eqb "/" c); [|by rewrite (IH Hs)].
  destruct s as [|c2 s2]; [done|].
  destruct (Ascii.eqb "/" c2); [|by rewrite (IH Hs)].
  simpl in Hs. apply andb_prop in Hs as [_ Hs2]. by rewrite (star_to_end _ Hs2).
Qed.

(** C8.  For a line that yields a record (a line of text, with no line feed
    inside), the expression stored is the remainder of the line up to the
    first [//], stripped of the whitespace around it; the line
    [#define EVT_X 0x100 // foo] yields the record [(EVT_X, 0x100)]. *)
Theorem comment_removed :
  (forall line const_name value_expr,
     Str.all_chars Char.not_newline (Str.strip line) = true ->
     extract_line line = Some (const_name, value_expr) ->
     exists kw rest,
       Str.split 2 (Str.strip line) = [kw; const_name; rest]
       /\ value_expr = Str.strip (Str.before rest "//"))
  /\ extract_line "#define EVT_X 0x100 // foo" = Some ("EVT_X", "0x100").
Proof.
  split; [|reflexivity].
  intros line const_name value_expr Hline Hext.
  apply extract_line_Some in Hext as (kw & name & rest & _ & Hthree & _ & [= -> ->]).
  exists kw, rest. split; [by apply split_three|].
  destruct Hthree as (gap1 & gap2 & Heq & _).
  rewrite Heq, !all_chars_app in Hline.
  apply andb_prop in Hline as [_ [_ [_ [_ Hrest]%andb_prop]%andb_prop]%andb_prop].
  by rewrite sub_comment_before.
Qed.

(** * Instances

    Each statement above that has hypotheses is applied here to a concrete
    input on which the hypotheses hold. *)

Lemma resolve_dependencies_order_instance :
  let defines := [("B", "(A + 0x5)"); ("A", "0x10"); ("X", "(Y + 1)")] in
  exists r : run,
    resolve_dependencies defines = Some r
    /\ output r = [("A", 16); ("B", 21)]
    /\ stderr r = ["Error: Could not resolve X = (Y + 1)"]
    /\ exists res : list (define * Z),
         output r = map pair_of res
         /\ defines ≡ₚ map fst res ++ reported r
         /\ (forall i d v, res !! i = Some (d, v) ->
               fst (evaluate (snd d) (symbols_after (take i (output r)))) = Some v).
Proof.
  intros defines.
  destruct (resolve_dependencies_order defines)
    as (r & Hrun & _ & res & H1 & H2 & H3 & _).
  exists r. split; [exact Hrun|].
  assert (r = {| passes := [[("A", 16)]; [("B", 21)]; []];
                 final_symbols := {[ "A" := 16; "B" := 21 ]};
                 reported := [("X", "(Y + 1)")] |}) as Hr.
  { assert (resolve_dependencies defines
            = Some {| passes := [[("A", 16)]; [("B", 21)]; []];
                      final_symbols := {[ "A" := 16; "B" := 21 ]};
                      reported := [("X", "(Y + 1)")] |}) as Hc by (vm_compute; reflexivity).
    rewrite Hc in Hrun. by injection Hrun. }
  split; [by rewrite Hr|]. split; [by rewrite Hr|].
  exists res. auto.
Defined.

Lemma three_defines_any_order_instance :
  let defines := [("C", "(B - A)"); ("B", "(A + 0x5)"); ("A", "0x10")] in
  [("A", "0x10"); ("B", "(A + 0x5)"); ("C", "(B - A)")] ≡ₚ defines
  /\ exists r : run,
       resolve_dependencies defines = Some r
       /\ output r ≡ₚ [("A", 16); ("B", 21); ("C", 5)]
       /\ reported r = []
       /\ final_symbols r = {[ "A" := 16; "B" := 21; "C" := 5 ]}.
Proof.
  intros defines.
  assert ([("A", "0x10"); ("B", "(A + 0x5)"); ("C", "(B - A)")] ≡ₚ defines) as Hperm.
  { apply (bool_decide_unpack _). vm_compute. exact I. }
  split; [exact Hperm|]. exact (three_defines_any_order defines Hperm).
Defined.

Lemma extract_line_selects_instance :
  let line := "  #define EVT_X 0x100 // foo" in
  Str.startswith (Str.strip line) "#define" = true
  /\ splits_in_three (Str.strip line) "#define" "EVT_X" "0x100 // foo"
  /\ extract_line line = Some ("EVT_X", "0x100").
Proof.
  intros line.
  assert (splits_in_three (Str.strip line) "#define" "EVT_X" "0x100 // foo") as Hthree.
  { exists " ", " ". repeat split; try reflexivity; discriminate. }
  split; [reflexivity|]. split; [exact Hthree|].
  destruct extract_line_selects as [Hiff _].
  apply (Hiff line ("EVT_X", "0x100")).
  exists "#define", "EVT_X", "0x100 // foo".
  split; [reflexivity|]. split; [exact Hthree|]. split; [right; left; reflexivity|reflexivity].
Defined.

Lemma symbols_only_grow_instance :
  let defines := [("B", "(A + 0x5)"); ("A", "0x10")] in
  let r := {| passes := [[("A", 16)]; [("B", 21)]];
              final_symbols := {[ "A" := 16; "B" := 21 ]};
              reported := [] |} in
  resolve_dependencies defines = Some r
  /\ NoDup (map fst defines)
  /\ symbols_after (take 1 (output r)) !! "A" = Some 16
  /\ symbols_after (take 2 (output r)) !! "A" = Some 16.
Proof.
  intros defines r.
  assert (resolve_dependencies defines = Some r) as Hrun by (vm_compute; reflexivity).
  assert (NoDup (map fst defines)) as Hnd.
  { apply (bool_decide_unpack _). vm_compute. exact I. }
  assert (symbols_after (take 1 (output r)) !! "A" = Some 16) as H1
    by (vm_compute; reflexivity).
  split; [exact Hrun|]. split; [exact Hnd|]. split; [exact H1|].
  destruct (symbols_only_grow defines r Hrun) as (_ & _ & _ & Hkeep & _).
  apply (Hkeep Hnd 1%nat 2%nat "A" 16); [|exact H1].
  apply le_S, le_n.
Defined.

Lemma comment_removed_instance :
  let line := "#define EVT_X 0x100 // foo" in
  Str.all_chars Char.not_newline (Str.strip line) = true
  /\ extract_line line = Some ("EVT_X", "0x100")
  /\ exists kw rest,
       Str.split 2 (Str.strip line) = [kw; "EVT_X"; rest]
       /\ "0x100" = Str.strip (Str.before rest "//").
Proof.
  intros line. split; [reflexivity|]. split; [reflexivity|].
  destruct comment_removed as [Hall _].
  apply (Hall line "EVT_X" "0x100"); reflexivity.
Defined.


Lemma failed_evaluation_keeps_state_instance :
  let st := run_pass ∅ [("A", "1")] in
  fst (evaluate "(Y + 1)" (symbols st)) = None
  /\ attempt st ("X", "(Y + 1)")
     = {| symbols := symbols st;
          yielded := yielded st;
          still_unresolved := still_unresolved st ++ [("X", "(Y + 1)")] |}
  /\ ("X", "(Y + 1)") ∈ still_unresolved (run_pass ∅ [("A", "1"); ("X", "(Y + 1)")]).
Proof.
  intros st.
  assert (fst (evaluate "(Y + 1)" (symbols st)) = None) as Hfail by (vm_compute; reflexivity).
  split; [exact Hfail|].
  destruct (failed_evaluation_keeps_state ∅ [("A", "1")] [] "X" "(Y + 1)" Hfail)
    as (_ & _ & Hatt & Hin & _).
  split; [exact Hatt|exact Hin].
Defined.

(** * The model on concrete inputs *)

Example number_accepts_final_newline : Re.number (String "1" (String "010" "")) = true.
Proof. reflexivity. Qed.

Example binary_groups : Re.binary "+" "( A  B +  C ))" = Some ("A  B", "C )").
Proof. reflexivity. Qed.

Example binary_blank_operand : Re.binary "+" "( + C)" = Some (" ", "C").
Proof. reflexivity. Qed.

Example binary_other_operator : Re.binary "-" "(A + C)" = None.
Proof. reflexivity. Qed.

Example sub_spaces_runs : Re.sub_spaces "a  b   c " = "a b c ".
Proof. reflexivity. Qed.

Example split_keeps_remainder :
  Str.split 2 "#define  EVT_X  (A + B)  " = ["#define"; "EVT_X"; "(A + B)  "].
Proof. reflexivity. Qed.

Example int_decimal_digits_limit :
  let ones := string_of_list_ascii (repeat "1"%char 4301) in
  Int.int ones 10 = None
  /\ parse_c_value ones = None
  /\ fst (evaluate ones ∅) = None
  /\ is_Some (Int.int (String "0" (String "x" ones)) 16)
  /\ is_Some (Int.int (string_of_list_ascii (repeat "1"%char 4300)) 10).
Proof.
  repeat split; try (vm_compute; reflexivity);
    apply (bool_decide_unpack _); vm_compute; exact I.
Qed.

Example over_long_literal_reported :
  let ones := string_of_list_ascii (repeat "1"%char 4301) in
  resolve_dependencies [("EVT_A", ones)]
  = Some {| passes := [[]]; final_symbols := ∅; reported := [("EVT_A", ones)] |}.
Proof. vm_compute. reflexivity. Qed.

Example int_underscore : Int.int "0x1_0" 16 = Some 16.
Proof. reflexivity. Qed.

Example int_double_underscore : Int.int "0x__0" 16 = None.
Proof. reflexivity. Qed.

Example depends_on_operands : depends_on "(B - 0x1)" ∅ = ["B"].
Proof. reflexivity. Qed.

Example evaluate_multiplication : fst (evaluate "(A * 2)" {[ "A" := 1 ]}) = None.
Proof. vm_compute. reflexivity. Qed.

Example header_scenario :
  option_map output
    (resolve_dependencies
       (extract_defines_from_header
          ["#define THIRD_PARTY_EVENT_ID_MIN 0x00011000";
           "#define EVT_FOO (THIRD_PARTY_EVENT_ID_MIN + 0x1)";
           "// a comment";
           "#define CDU_EVT_OFFSET_BAR 0x2";
           "#define OTHER 7";
           "#define EVT_BAZ (EVT_FOO + CDU_EVT_OFFSET_BAR)"]))
  = Some [("THIRD_PARTY_EVENT_ID_MIN", 69632); ("EVT_FOO", 69633);
          ("CDU_EVT_OFFSET_BAR", 2); ("EVT_BAZ", 69635)].
Proof. vm_compute. reflexivity. Qed.

(** * Further properties of the program *)

(** ** Literals *)

(** X1.  An expression whose normalized text is [0x] followed by one or more
    hexadecimal digits evaluates to the number that the digits denote in base
    16, whatever the dictionary. *)
Theorem evaluate_lower_hex_literal expr (symbols : gmap string Z) ds :
  Re.sub_spaces (Str.strip expr) = "0x" +:+ ds ->
  ds <> "" -> Str.all_chars Char.ishex ds = true ->
  fst (evaluate expr symbols) = Some (numeral 16 ds).
Proof. apply evaluate_hex. Qed.

Lemma evaluate_lower_hex_literal_instance :
  Re.sub_spaces (Str.strip "  0x1F ") = "0x" +:+ "1F"
  /\ "1F" <> ""
  /\ Str.all_chars Char.ishex "1F" = true
  /\ fst (evaluate "  0x1F " {[ "A" := 1 ]}) = Some 31.
Proof.
  split; [reflexivity|]. split; [discriminate|]. split; [reflexivity|].
  apply (evaluate_lower_hex_literal "  0x1F " {[ "A" := 1 ]} "1F");
    [reflexivity|discriminate|reflexivity].
Defined.

(** X2.  An expression whose normalized text consists of one or more decimal
    digits evaluates to the number that they denote in base 10 when there
    are at most 4300 of them, the most that [int] converts in base 10; with
    more digits the evaluation raises [ValueError]. *)
Theorem evaluate_decimal_literal expr (symbols : gmap string Z) ds :
  Re.sub_spaces (Str.strip expr) = ds ->
  ds <> "" -> Str.all_chars Char.isdecimal ds = true ->
  fst (evaluate expr symbols)
  = if Z.of_nat (String.length ds) <=? Int.max_str_digits
    then Some (numeral 10 ds) else None.
Proof.
  intros Hexpr Hne Hall.
  destruct (Z.leb_spec (Z.of_nat (String.length ds)) Int.max_str_digits) as [Hle|Hgt].
  - by apply evaluate_decimal.
  - by apply (evaluate_decimal_long expr symbols ds).
Qed.

Lemma evaluate_decimal_literal_instance :
  Re.sub_spaces (Str.strip " 0042 ") = "0042"
  /\ "0042" <> ""
  /\ Str.all_chars Char.isdecimal "0042" = true
  /\ fst (evaluate " 0042 " ∅) = Some 42.
Proof.
  split; [reflexivity|]. split; [discriminate|]. split; [reflexivity|].
  apply (evaluate_decimal_literal " 0042 " ∅ "0042");
    [reflexivity|discriminate|reflexivity].
Defined.

(** X3.  An expression [0X] followed by hexadecimal digits is not a literal
    for [evaluate]: unless that very text is a key of the dictionary, the
    evaluation raises [ValueError]. *)
Theorem evaluate_upper_hex_raises (symbols : gmap string Z) ds :
  ds <> "" -> Str.all_chars Char.ishex ds = true ->
  symbols !! ("0X" +:+ ds) = None ->
  fst (evaluate ("0X" +:+ ds) symbols) = None.
Proof. apply evaluate_hex_upper. Qed.

Lemma evaluate_upper_hex_raises_instance :
  "fF0" <> ""
  /\ Str.all_chars Char.ishex "fF0" = true
  /\ ({[ "A" := 1 ]} : gmap string Z) !! ("0X" +:+ "fF0") = None
  /\ fst (evaluate "0XfF0" {[ "A" := 1 ]}) = None.
Proof.
  split; [discriminate|]. split; [reflexivity|]. split; [vm_compute; reflexivity|].
  apply (evaluate_upper_hex_raises {[ "A" := 1 ]} "fF0");
    [discriminate|reflexivity|vm_compute; reflexivity].
Defined.

(** X4.  [parse_c_value] reads [0x] or [0X] followed by one or more
    hexadecimal digits as the number that the digits denote in base 16. *)
Theorem parse_c_value_either_prefix (x : ascii) ds :
  x = "x"%char \/ x = "X"%char ->
  ds <> "" -> Str.all_chars Char.ishex ds = true ->
  parse_c_value (String "0" (String x ds)) = Some (numeral 16 ds).
Proof. apply parse_c_value_hex. Qed.

Lemma parse_c_value_either_prefix_instance :
  ("X"%char = "x"%char \/ "X"%char = "X"%char)
  /\ "00011000" <> ""
  /\ Str.all_chars Char.ishex "00011000" = true
  /\ parse_c_value "0X00011000" = Some 69632.
Proof.
  split; [right; reflexivity|]. split; [discriminate|]. split; [reflexivity|].
  apply (parse_c_value_either_prefix "X" "00011000");
    [right; reflexivity|discriminate|reflexivity].
Defined.

Lemma digit_value_nonneg c d : Char.digit_value c = Some d -> 0 <= d.
Proof.
  unfold Char.digit_value, Char.isdecimal. cbv zeta.
  destruct ((48 <=? Char.code c) && (Char.code c <=? 57))%N eqn:E1.
  { intros [= H]. apply andb_prop in E1 as [H1 _]. apply N.leb_le in H1. lia. }
  destruct ((97 <=? Char.code c) && (Char.code c <=? 122))%N eqn:E2.
  { intros [= H]. apply andb_prop in E2 as [H1 _]. apply N.leb_le in H1. lia. }
  destruct ((65 <=? Char.code c) && (Char.code c <=? 90))%N eqn:E3; [|done].
  intros [= H]. apply andb_prop in E3 as [H1 _]. apply N.leb_le in H1. lia.
Qed.

Lemma digits_nonneg base s : forall acc prev seen v,
  0 <= base -> 0 <= acc ->
  Int.digits base acc prev seen s = Some v -> 0 <= v.
Proof.
  induction s as [|c s IH]; intros acc prev seen v Hbase Hacc; cbn [Int.digits].
  - destruct prev; [done|]. destruct seen; [|done]. by intros [= <-].
  - destruct (Ascii.eqb c "_").
    + destruct prev; [done|]. by apply IH.
    + destruct (Char.digit_value c) as [d|] eqn:Hd; [|done].
      destruct (d <? base); [|done]. apply IH; [done|].
      apply digit_value_nonneg in Hd. nia.
Qed.

Lemma skip_leading_underscore {A} (s : string) (x : option A) v :
  match s with String "_" _ => None | _ => x end = Some v -> x = Some v.
Proof.
  destruct s as [|c s]; [done|].
  destruct c as [[|] [|] [|] [|] [|] [|] [|] [|]]; done.
Qed.

Lemma int_unsigned_nonneg s base v :
  Int.sign s = (1, s) -> 0 <= base -> Int.int s base = Some v -> 0 <= v.
Proof.
  intros Hsign Hbase. unfold Int.int. rewrite Hsign.
  intros H%skip_leading_underscore.
  destruct (Int.digits base 0 false false _) as [w|] eqn:Hw; [|done].
  destruct (negb _ && _); [done|].
  injection H as <-. apply digits_nonneg in Hw; lia.
Qed.

Lemma startswith_zero s p :
  p = "0x" \/ p = "0X" -> Str.startswith s p = true -> Int.sign s = (1, s).
Proof.
  intros Hp. destruct s as [|c s]; [by destruct Hp as [-> | ->]|].
  destruct Hp as [-> | ->]; cbn [Str.startswith];
    (destruct (Ascii.eqb "0" c) eqn:Hc; [|done]; by apply Ascii.eqb_eq in Hc as <-).
Qed.

Lemma isdigit_unsigned s : Str.isdigit s = true -> Int.sign s = (1, s).
Proof.
  destruct s as [|c s]; [done|]. unfold Str.isdigit. cbn [Str.all_chars].
  intros [Hc _]%andb_prop. revert Hc. by_cases_on_char c.
Qed.

(** X5.  [parse_c_value] never returns a negative number: it has no sign
    handling, so whatever it parses is a natural number. *)
Theorem parse_c_value_nonnegative value_str v :
  parse_c_value value_str = Some v -> 0 <= v.
Proof.
  unfold parse_c_value.
  destruct (Str.startswith _ "0x" || Str.startswith _ "0X") eqn:Hpre.
  - apply int_unsigned_nonneg; [|lia].
    apply orb_prop in Hpre as [H|H];
      [apply (startswith_zero _ "0x"); [by left|done]
      |apply (startswith_zero _ "0X"); [by right|done]].
  - destruct (Str.isdigit _) eqn:Hdig; [|done].
    apply int_unsigned_nonneg; [|lia]. by apply isdigit_unsigned.
Qed.

Lemma parse_c_value_nonnegative_instance :
  parse_c_value " 0x7fff " = Some 32767 /\ 0 <= 32767.
Proof.
  assert (parse_c_value " 0x7fff " = Some 32767) as H by reflexivity.
  split; [exact H|]. exact (parse_c_value_nonnegative " 0x7fff " 32767 H).
Defined.

(** X6.  A literal takes precedence over the dictionary: when the normalized
    expression is admitted by the pattern for literals, [evaluate] returns
    the same result whatever the dictionary holds, even under a key equal to
    the expression; and it returns a value when the normalized expression
    has at most 4300 characters, the number of decimal digits that [int]
    converts. *)
Theorem literal_shadows_symbols expr (symbols : gmap string Z) :
  Re.number (Re.sub_spaces (Str.strip expr)) = true ->
  fst (evaluate expr symbols) = fst (evaluate expr ∅)
  /\ (Z.of_nat (String.length (Re.sub_spaces (Str.strip expr))) <= Int.max_str_digits ->
      is_Some (fst (evaluate expr symbols))).
Proof.
  intros Hnum. rewrite !evaluate_run. cbn [fst]. unfold expr_value.
  rewrite Hnum. split; [done|]. by apply parse_c_value_number.
Qed.

Lemma literal_shadows_symbols_instance :
  Re.number (Re.sub_spaces (Str.strip "16")) = true
  /\ fst (evaluate "16" {[ "16" := 7 ]}) = fst (evaluate "16" ∅)
  /\ is_Some (fst (evaluate "16" {[ "16" := 7 ]})).
Proof.
  split; [reflexivity|].
  destruct (literal_shadows_symbols "16" {[ "16" := 7 ]} eq_refl) as [Hsame Hval].
  split; [exact Hsame|]. apply Hval. vm_compute. discriminate.
Defined.

(** ** What an evaluation needs *)

(** X8.  Adding keys to the dictionary never makes a successful evaluation
    fail: an expression that evaluates with a dictionary evaluates with every
    dictionary that has at least its keys. *)
Theorem evaluate_monotone expr (s1 s2 : gmap string Z) :
  (forall k, is_Some (s1 !! k) -> is_Some (s2 !! k)) ->
  is_Some (fst (evaluate expr s1)) -> is_Some (fst (evaluate expr s2)).
Proof. rewrite !evaluate_run. apply expr_value_mono. Qed.

Lemma evaluate_monotone_instance :
  is_Some (fst (evaluate "(A + 1)" {[ "A" := 1 ]}))
  /\ is_Some (fst (evaluate "(A + 1)" {[ "A" := 5; "B" := 9 ]})).
Proof.
  assert (is_Some (fst (evaluate "(A + 1)" {[ "A" := 1 ]}))) as H1
    by (exists 2; vm_compute; reflexivity).
  split; [exact H1|].
  apply (evaluate_monotone "(A + 1)" {[ "A" := 1 ]} {[ "A" := 5; "B" := 9 ]}); [|exact H1].
  intros k Hk. apply lookup_singleton_is_Some in Hk as ->.
  exists 5. apply lookup_insert_eq.
Defined.

(** ** Whitespace *)

Lemma rstrip_idempotent s : Str.rstrip (Str.rstrip s) = Str.rstrip s.
Proof.
  induction s as [|c s IH]; [done|]. cbn [Str.rstrip].
  destruct (Str.rstrip s) as [|c' r] eqn:E.
  - destruct (Char.isspace c) eqn:Hc; [done|]. cbn [Str.rstrip]. by rewrite Hc.
  - remember (String c' r) as x eqn:Ex. cbn [Str.rstrip]. rewrite IH. by subst x.
Qed.

Lemma strip_fixed s :
  (s = "" \/ starts_nonspace s = true) -> Str.rstrip s = s -> Str.strip s = s.
Proof.
  intros Hs Hr. unfold Str.strip.
  destruct Hs as [->|Hs]; [done|]. by rewrite (lstrip_starts_nonspace _ Hs).
Qed.

Lemma strip_idempotent s : Str.strip (Str.strip s) = Str.strip s.
Proof.
  apply strip_fixed; [apply lstrip_strip|]. unfold Str.strip. apply rstrip_idempotent.
Qed.

Lemma isspace_space : Char.isspace " " = true.
Proof. reflexivity. Qed.

Lemma sub_spaces_space c s :
  Char.isspace c = true ->
  Re.sub_spaces (String c s)
  = match s with
    | String c' _ =>
        if Char.isspace c' then Re.sub_spaces s else String " " (Re.sub_spaces s)
    | EmptyString => " "
    end.
Proof. intros Hc. cbn [Re.sub_spaces]. rewrite Hc. by destruct s. Qed.

Lemma sub_spaces_char c s :
  Char.isspace c = false -> Re.sub_spaces (String c s) = String c (Re.sub_spaces s).
Proof. intros Hc. cbn [Re.sub_spaces]. by rewrite Hc. Qed.

Lemma sub_spaces_idempotent s : Re.sub_spaces (Re.sub_spaces s) = Re.sub_spaces s.
Proof.
  induction s as [|c s IH]; [done|].
  destruct (Char.isspace c) eqn:Hc.
  - rewrite (sub_spaces_space c s Hc). destruct s as [|c' s']; [reflexivity|].
    destruct (Char.isspace c') eqn:Hc'; [exact IH|].
    rewrite (sub_spaces_char c' s' Hc') in *.
    rewrite (sub_spaces_space " " _ isspace_space), Hc'. by rewrite IH.
  - rewrite (sub_spaces_char c s Hc), (sub_spaces_char c _ Hc). by rewrite IH.
Qed.

Lemma sub_spaces_starts s :
  starts_nonspace s = true -> starts_nonspace (Re.sub_spaces s) = true.
Proof.
  destruct s as [|c s]; [done|]. cbn [starts_nonspace]. unfold nonspace.
  destruct (Char.isspace c) eqn:Hc; [done|]. intros _.
  rewrite (sub_spaces_char c s Hc). cbn [starts_nonspace]. unfold nonspace. by rewrite Hc.
Qed.

Lemma sub_spaces_nonempty s : s <> "" -> Re.sub_spaces s <> "".
Proof.
  induction s as [|c s IH]; [done|]. intros _.
  destruct (Char.isspace c) eqn:Hc; [|by rewrite (sub_spaces_char c s Hc)].
  rewrite (sub_spaces_space c s Hc). destruct s as [|c' s']; [done|].
  destruct (Char.isspace c'); [by apply IH|done].
Qed.

Lemma rstrip_cons c s :
  s <> "" -> Str.rstrip s = s -> Str.rstrip (String c s) = String c s.
Proof. intros Hne Hs. cbn [Str.rstrip]. rewrite Hs. by destruct s. Qed.

Lemma rstrip_cons_inv c s :
  Str.rstrip (String c s) = String c s ->
  (s = "" /\ Char.isspace c = false) \/ (s <> "" /\ Str.rstrip s = s).
Proof.
  cbn [Str.rstrip]. destruct (Str.rstrip s) as [|c' r] eqn:E.
  - destruct (Char.isspace c); [done|]. intros [= <-]. by left.
  - intros [= <-]. by right.
Qed.

Lemma sub_spaces_rstrip s :
  Str.rstrip s = s -> Str.rstrip (Re.sub_spaces s) = Re.sub_spaces s.
Proof.
  induction s as [|c s IH]; [done|].
  intros [[-> Hc]|[Hne Hs]]%rstrip_cons_inv.
  { rewrite (sub_spaces_char c "" Hc). cbn [Re.sub_spaces Str.rstrip]. by rewrite Hc. }
  specialize (IH Hs). pose proof (sub_spaces_nonempty s Hne) as Hne'.
  destruct (Char.isspace c) eqn:Hc.
  - rewrite (sub_spaces_space c s Hc). destruct s as [|c' s']; [done|].
    destruct (Char.isspace c'); [exact IH|]. by apply rstrip_cons.
  - rewrite (sub_spaces_char c s Hc). by apply rstrip_cons.
Qed.

Lemma normalize_idempotent expr :
  Re.sub_spaces (Str.strip (Re.sub_spaces (Str.strip expr)))
  = Re.sub_spaces (Str.strip expr).
Proof.
  rewrite (strip_fixed (Re.sub_spaces (Str.strip expr))).
  - apply sub_spaces_idempotent.
  - destruct (lstrip_strip expr) as [->|H]; [by left|]. right. by apply sub_spaces_starts.
  - apply sub_spaces_rstrip. unfold Str.strip. apply rstrip_idempotent.
Qed.

(** X9.  [evaluate] does not distinguish an expression from its normalized
    text: whitespace around the expression and the length of the runs of
    whitespace inside it have no effect on the result. *)
Theorem evaluate_ignores_spacing expr (symbols : gmap string Z) :
  evaluate (Re.sub_spaces (Str.strip expr)) symbols = evaluate expr symbols.
Proof.
  rewrite !evaluate_run. unfold expr_value. by rewrite normalize_idempotent.
Qed.

(** ** Records of the extractor *)

Lemma omap_length {A B} (f : A -> option B) (l : list A) :
  (length (omap f l) <= length l)%nat.
Proof.
  induction l as [|x l IH]; [done|]. cbn. destruct (f x); simpl; lia.
Qed.

(** X10.  Every record that [extract_defines_from_header] returns comes from
    a line of the file; its name passes the filter and contains no
    whitespace, and its expression has no whitespace at either end.  The
    extractor returns at most one record for a line, and the records of two
    files read one after the other are those of the first followed by those
    of the second. *)
Theorem extracted_records_wellformed (lines more : list string) :
  (forall const_name value_expr,
     (const_name, value_expr) ∈ extract_defines_from_header lines ->
     (exists line, line ∈ lines /\ extract_line line = Some (const_name, value_expr))
     /\ wanted const_name = true
     /\ word const_name
     /\ Str.strip value_expr = value_expr)
  /\ (length (extract_defines_from_header lines) <= length lines)%nat
  /\ extract_defines_from_header (lines ++ more)
     = extract_defines_from_header lines ++ extract_defines_from_header more.
Proof.
  unfold extract_defines_from_header. rewrite !extract_defines_fold. cbn [app].
  split; [|split; [apply omap_length|apply omap_app]].
  intros const_name value_expr (line & Hline & Hext)%list_elem_of_omap.
  split; [eauto|].
  apply extract_line_Some in Hext
    as (kw & name & rest & _ & (g1 & g2 & _ & _ & _ & Hname & _) & Hwanted & [= -> ->]).
  split; [done|]. split; [done|]. apply strip_idempotent.
Qed.

Lemma extracted_records_wellformed_instance :
  let lines := ["#define EVT_A 0x1 // first"; "int x;"; "#define OTHER 2"] in
  ("EVT_A", "0x1") ∈ extract_defines_from_header lines
  /\ wanted "EVT_A" = true
  /\ Str.strip "0x1" = "0x1".
Proof.
  intros lines.
  assert (("EVT_A", "0x1") ∈ extract_defines_from_header lines) as Hin.
  { vm_compute. apply list_elem_of_singleton. reflexivity. }
  split; [exact Hin|].
  destruct (extracted_records_wellformed lines []) as [H _].
  destruct (H "EVT_A" "0x1" Hin) as (_ & Hw & _ & Hs). split; [exact Hw|exact Hs].
Defined.

(** ** The parenthesized patterns *)

Lemma append_assoc (x y z : string) : (x +:+ y) +:+ z = x +:+ y +:+ z.
Proof.
  induction x as [|c x IH]; [done|]. rewrite !append_cons. by rewrite IH.
Qed.

Lemma lit_inv {R} a (k : string -> option R) s r :
  Re.lit a k s = Some r -> exists s', s = String a s' /\ k s' = Some r.
Proof.
  destruct s as [|c s]; [done|]. cbn [Re.lit].
  destruct (Ascii.eqb a c) eqn:E; [|done]. apply Ascii.eqb_eq in E as <-. eauto.
Qed.

Lemma star_inv {R} p (k : string -> option R) s r :
  Re.star p k s = Some r ->
  exists ws rest, s = ws +:+ rest /\ Str.all_chars p ws = true /\ k rest = Some r.
Proof.
  induction s as [|c s IH]; cbn [Re.star].
  - intros H. exists "", "". auto.
  - destruct (p c) eqn:Hc; [|intros H; exists "", (String c s); auto].
    destruct (Re.star p k s) as [r'|] eqn:Hs.
    + intros [= <-]. destruct (IH eq_refl) as (ws & rest & -> & Hws & Hk).
      exists (String c ws), rest. rewrite append_cons. cbn [Str.all_chars].
      by rewrite Hc.
    + intros H. exists "", (String c s). auto.
Qed.

Lemma lazy_more_inv {R} p (k : string -> string -> option R) s : forall g r,
  Re.lazy_more p g k s = Some r ->
  exists g' rest,
    s = g' +:+ rest /\ Str.all_chars p g' = true /\ k (g +:+ g') rest = Some r.
Proof.
  induction s as [|c s IH]; intros g r; cbn [Re.lazy_more].
  - destruct (k g "") eqn:Hk; [|done]. intros [= <-].
    exists "", "". rewrite (append_empty_r g). split; [reflexivity|]. split; [reflexivity|done].
  - destruct (k g (String c s)) eqn:Hk.
    { intros [= <-]. exists "", (String c s). rewrite (append_empty_r g).
      split; [reflexivity|]. split; [reflexivity|done]. }
    destruct (p c) eqn:Hc; [|done].
    intros (g' & rest & -> & Hg' & Hk')%IH.
    exists (String c g'), rest. rewrite append_cons. cbn [Str.all_chars]. rewrite Hc.
    split; [done|]. split; [done|].
    by rewrite append_assoc, append_cons, append_nil in Hk'.
Qed.

Lemma group_lazy_plus_inv {R} p (k : string -> string -> option R) s r :
  Re.group_lazy_plus p k s = Some r ->
  exists g rest,
    s = g +:+ rest /\ g <> "" /\ Str.all_chars p g = true /\ k g rest = Some r.
Proof.
  destruct s as [|c s]; [done|]. cbn [Re.group_lazy_plus].
  destruct (p c) eqn:Hc; [|done].
  intros (g' & rest & -> & Hg' & Hk)%lazy_more_inv.
  exists (String c g'), rest. rewrite append_cons in *. rewrite append_nil in Hk.
  cbn [Str.all_chars]. by rewrite Hc.
Qed.

Lemma eol_inv {R} (k : string -> option R) s r :
  Re.eol k s = Some r -> (s = "" \/ s = String "010" "") /\ k s = Some r.
Proof.
  destruct s as [|c [|c' s]]; cbn [Re.eol]; [auto| |done].
  destruct (Char.code c =? 10)%N eqn:Hc; [|done].
  rewrite (code_newline c Hc). auto.
Qed.

Lemma binary_inv op s g1 g2 :
  Re.binary op s = Some (g1, g2) ->
  exists w1 w2 w3 w4 tail,
    s = String "(" (w1 +:+ g1 +:+ w2 +:+ String op (w3 +:+ g2 +:+ w4 +:+ String ")" tail))
    /\ Str.all_chars Char.isspace w1 = true
    /\ Str.all_chars Char.isspace w2 = true
    /\ Str.all_chars Char.isspace w3 = true
    /\ Str.all_chars Char.isspace w4 = true
    /\ g1 <> "" /\ Str.all_chars Char.not_plus_minus g1 = true
    /\ g2 <> "" /\ Str.all_chars Char.not_plus_minus g2 = true
    /\ (tail = "" \/ tail = String "010" "").
Proof.
  unfold Re.binary.
  intros (s1 & -> & H)%lit_inv.
  apply star_inv in H as (w1 & s2 & -> & Hw1 & H).
  apply group_lazy_plus_inv in H as (h1 & s3 & -> & Hne1 & Hg1 & H).
  apply star_inv in H as (w2 & s4 & -> & Hw2 & H).
  apply lit_inv in H as (s5 & -> & H).
  apply star_inv in H as (w3 & s6 & -> & Hw3 & H).
  apply group_lazy_plus_inv in H as (h2 & s7 & -> & Hne2 & Hg2 & H).
  apply star_inv in H as (w4 & s8 & -> & Hw4 & H).
  apply lit_inv in H as (s9 & -> & H).
  apply eol_inv in H as [Htail [= -> ->]].
  exists w1, w2, w3, w4, s9. auto 12.
Qed.

Lemma star_complete {R} p (k : string -> option R) ws rest :
  Str.all_chars p ws = true -> is_Some (k rest) ->
  is_Some (Re.star p k (ws +:+ rest)).
Proof.
  intros Hws Hk. induction ws as [|c ws IH]; rewrite ?append_nil, ?append_cons.
  - destruct rest as [|c rest]; cbn [Re.star]; [done|].
    destruct (p c); [|done]. by destruct (Re.star p k rest).
  - cbn [Str.all_chars] in Hws. apply andb_prop in Hws as [Hc Hws].
    cbn [Re.star]. rewrite Hc. destruct (IH Hws) as [r ->]. eauto.
Qed.

Lemma lazy_more_complete {R} p (k : string -> string -> option R) w rest : forall g,
  Str.all_chars p w = true -> is_Some (k (g +:+ w) rest) ->
  is_Some (Re.lazy_more p g k (w +:+ rest)).
Proof.
  induction w as [|c w IH]; intros g Hw Hk; rewrite ?append_nil, ?append_cons.
  - rewrite append_empty_r in Hk. destruct Hk as [r Hr].
    destruct rest; cbn [Re.lazy_more]; rewrite Hr; eauto.
  - cbn [Str.all_chars] in Hw. apply andb_prop in Hw as [Hc Hw].
    cbn [Re.lazy_more]. destruct (k g (String c (w +:+ rest))); [eauto|].
    rewrite Hc. apply IH; [done|].
    by rewrite append_assoc, append_cons, append_nil.
Qed.

Lemma group_lazy_plus_complete {R} p (k : string -> string -> option R) w rest :
  w <> "" -> Str.all_chars p w = true -> is_Some (k w rest) ->
  is_Some (Re.group_lazy_plus p k (w +:+ rest)).
Proof.
  destruct w as [|c w]; [done|]. intros _ Hw Hk. rewrite append_cons.
  cbn [Str.all_chars] in Hw. apply andb_prop in Hw as [Hc Hw].
  cbn [Re.group_lazy_plus]. rewrite Hc. apply lazy_more_complete; [done|].
  by rewrite append_cons, append_nil.
Qed.

Lemma binary_complete op a b :
  a <> "" -> b <> "" ->
  Str.all_chars Char.not_plus_minus a = true ->
  Str.all_chars Char.not_plus_minus b = true ->
  is_Some (Re.binary op (String "(" (a +:+ String op (b +:+ ")")))).
Proof.
  intros Ha Hb Hpa Hpb. unfold Re.binary. cbn [Re.lit]. rewrite Ascii.eqb_refl.
  apply (star_complete _ _ "" _ eq_refl).
  apply group_lazy_plus_complete; [done|done|].
  apply (star_complete _ _ "" _ eq_refl). cbn [Re.lit]. rewrite Ascii.eqb_refl.
  apply (star_complete _ _ "" _ eq_refl).
  apply group_lazy_plus_complete; [done|done|].
  apply (star_complete _ _ "" _ eq_refl). cbn [Re.lit]. rewrite Ascii.eqb_refl.
  cbn [Re.eol]. eauto.
Qed.

Lemma split_at_char (p : ascii -> bool) c d x : forall x' y y',
  p c = false -> p d = false ->
  Str.all_chars p x = true -> Str.all_chars p x' = true ->
  x +:+ String c y = x' +:+ String d y' ->
  x = x' /\ c = d /\ y = y'.
Proof.
  induction x as [|e x IH]; intros [|e' x'] y y' Hc Hd Hx Hx';
    rewrite ?append_nil, ?append_cons; cbn [Str.all_chars] in *.
  - by intros [= -> ->].
  - intros [= -> _]. apply andb_prop in Hx' as [He _]. congruence.
  - intros [= -> _]. apply andb_prop in Hx as [He _]. congruence.
  - intros [= -> H]. apply andb_prop in Hx as [_ Hx]. apply andb_prop in Hx' as [_ Hx'].
    destruct (IH _ _ _ Hc Hd Hx Hx' H) as (-> & -> & ->). done.
Qed.

Lemma snoc_inj x : forall y c d,
  x +:+ String c "" = y +:+ String d "" -> x = y /\ c = d.
Proof.
  induction x as [|e x IH]; intros [|e' y] c d; rewrite ?append_nil, ?append_cons.
  - by intros [= ->].
  - intros [= -> H]. by destruct y.
  - intros [= -> H]. by destruct x.
  - intros [= -> H]. by destruct (IH _ _ _ H) as [-> ->].
Qed.

Lemma isspace_not_plus_minus c :
  Char.isspace c = true -> Char.not_plus_minus c = true.
Proof. by_cases_on_char c. Qed.

Lemma rstrip_blank w : Str.all_chars Char.isspace w = true -> Str.rstrip w = "".
Proof.
  induction w as [|c w IH]; [done|]. cbn [Str.all_chars Str.rstrip].
  intros [Hc Hw]%andb_prop. by rewrite (IH Hw), Hc.
Qed.

Lemma rstrip_app_blank x w :
  Str.all_chars Char.isspace w = true -> Str.rstrip (x +:+ w) = Str.rstrip x.
Proof.
  intros Hw. induction x as [|c x IH]; rewrite ?append_nil, ?append_cons.
  - by apply rstrip_blank.
  - cbn [Str.rstrip]. by rewrite IH.
Qed.

Lemma lstrip_rstrip_comm s : Str.lstrip (Str.rstrip s) = Str.rstrip (Str.lstrip s).
Proof.
  induction s as [|c s IH]; [done|]. cbn [Str.lstrip].
  destruct (Char.isspace c) eqn:Hc.
  - rewrite <- IH. cbn [Str.rstrip]. destruct (Str.rstrip s) as [|c' r].
    + by rewrite Hc.
    + cbn [Str.lstrip]. by rewrite Hc.
  - cbn [Str.rstrip]. destruct (Str.rstrip s) as [|c' r].
    + rewrite Hc. cbn [Str.lstrip]. by rewrite Hc.
    + cbn [Str.lstrip]. by rewrite Hc.
Qed.

Lemma strip_blank_around w1 g w2 :
  Str.all_chars Char.isspace w1 = true ->
  Str.all_chars Char.isspace w2 = true ->
  Str.strip (w1 +:+ g +:+ w2) = Str.strip g.
Proof.
  intros H1 H2. unfold Str.strip.
  rewrite (lstrip_blank _ _ H1), <- !lstrip_rstrip_comm.
  by rewrite (rstrip_app_blank _ _ H2).
Qed.

(** X11.  The shape that the parenthesized patterns accept: for texts [a]
    and [b] that are not empty and contain neither [+] nor [-], the pattern
    for the operator [op] matches [(a op b)], and its two groups are [a] and
    [b] up to the whitespace around them. *)
Theorem binary_operands (op : ascii) (a b : string) :
  op = "+"%char \/ op = "-"%char ->
  a <> "" -> b <> "" ->
  Str.all_chars Char.not_plus_minus a = true ->
  Str.all_chars Char.not_plus_minus b = true ->
  exists g1 g2,
    Re.binary op (String "(" (a +:+ String op (b +:+ ")"))) = Some (g1, g2)
    /\ Str.strip g1 = Str.strip a
    /\ Str.strip g2 = Str.strip b.
Proof.
  intros Hop Ha Hb Hpa Hpb.
  destruct (binary_complete op a b Ha Hb Hpa Hpb) as [[g1 g2] Hm].
  exists g1, g2. split; [done|].
  destruct (binary_inv _ _ _ _ Hm)
    as (w1 & w2 & w3 & w4 & tail & Heq & Hw1 & Hw2 & Hw3 & Hw4 & _ & Hg1 & _ & Hg2 & Htail).
  injection Heq as Heq.
  assert (Char.not_plus_minus op = false) as Hnop by (by destruct Hop as [-> | ->]).
  rewrite <- !append_assoc in Heq.
  apply (split_at_char Char.not_plus_minus) in Heq as (-> & _ & Heq); [|done..| |].
  - split; [rewrite append_assoc; symmetry; by apply strip_blank_around|].
    destruct Htail as [-> | ->].
    + apply snoc_inj in Heq as [-> _]. rewrite append_assoc. symmetry.
      by apply strip_blank_around.
    + exfalso. change (String ")" (String "010" "")) with (")" +:+ String "010" "") in Heq.
      rewrite <- (append_assoc _ ")") in Heq. by apply snoc_inj in Heq as [_ [=]].
  - done.
  - rewrite !all_chars_app, Hg1.
    rewrite (all_chars_impl _ _ _ isspace_not_plus_minus Hw1).
    by rewrite (all_chars_impl _ _ _ isspace_not_plus_minus Hw2).
Qed.

Lemma binary_operands_instance :
  ("-"%char = "+"%char \/ "-"%char = "-"%char)
  /\ " B " <> "" /\ "  A" <> ""
  /\ Str.all_chars Char.not_plus_minus " B " = true
  /\ Str.all_chars Char.not_plus_minus "  A" = true
  /\ exists g1 g2,
       Re.binary "-" "( B -  A)" = Some (g1, g2)
       /\ Str.strip g1 = "B" /\ Str.strip g2 = "A".
Proof.
  split; [by right|]. split; [discriminate|]. split; [discriminate|].
  split; [reflexivity|]. split; [reflexivity|].
  exact (binary_operands "-" " B " "  A" (or_intror eq_refl)
           ltac:(discriminate) ltac:(discriminate) eq_refl eq_refl).
Defined.

Lemma number_paren s : Re.number (String "(" s) = false.
Proof.
  unfold Re.number. cbn [Re.lit Re.plus].
  change (Ascii.eqb "0" "(") with false. change (Char.isdecimal "(") with false.
  cbv iota. apply bool_decide_eq_false_2. apply is_Some_None.
Qed.

Lemma binary_plus_on_minus a rest :
  Str.all_chars Char.not_plus_minus a = true ->
  Re.binary "+" (String "(" (a +:+ String "-" rest)) = None.
Proof.
  intros Ha. destruct (Re.binary "+" _) as [[g1 g2]|] eqn:Hm; [|done]. exfalso.
  destruct (binary_inv _ _ _ _ Hm)
    as (w1 & w2 & w3 & w4 & tail & Heq & Hw1 & Hw2 & _ & _ & _ & Hg1 & _).
  injection Heq as Heq. rewrite <- !append_assoc in Heq.
  apply (split_at_char Char.not_plus_minus) in Heq as (_ & [=] & _); [done..| |].
  - done.
  - rewrite !all_chars_app, Hg1.
    rewrite (all_chars_impl _ _ _ isspace_not_plus_minus Hw1).
    by rewrite (all_chars_impl _ _ _ isspace_not_plus_minus Hw2).
Qed.

Lemma operand_value_strip x y (symbols : gmap string Z) :
  Str.strip x = Str.strip y -> operand_value x symbols = operand_value y symbols.
Proof. intros H. unfold operand_value. by rewrite H. Qed.

(** X12.  [evaluate] on a parenthesized sum or difference: when the
    normalized expression is [(a op b)] with [op] one of [+] and [-] and with
    [a] and [b] not empty and free of [+] and [-], and it is not itself a key
    of the dictionary, the result is the sum, or the difference, of what
    [evaluate_operand] returns for [a] and for [b]; it raises when one of
    them raises. *)
Theorem evaluate_parenthesized expr (symbols : gmap string Z) (op : ascii) (a b : string) :
  op = "+"%char \/ op = "-"%char ->
  a <> "" -> b <> "" ->
  Str.all_chars Char.not_plus_minus a = true ->
  Str.all_chars Char.not_plus_minus b = true ->
  Re.sub_spaces (Str.strip expr) = String "(" (a +:+ String op (b +:+ ")")) ->
  symbols !! String "(" (a +:+ String op (b +:+ ")")) = None ->
  fst (evaluate expr symbols)
  = (x ← fst (evaluate_operand a symbols);
     y ← fst (evaluate_operand b symbols);
     Some (if Ascii.eqb op "+" then x + y else x - y)).
Proof.
  intros Hop Ha Hb Hpa Hpb Hnorm Hkey.
  rewrite evaluate_run, !evaluate_operand_run. cbn [fst]. unfold expr_value.
  rewrite Hnorm, number_paren, Hkey.
  destruct (binary_operands op a b Hop Ha Hb Hpa Hpb) as (g1 & g2 & Hm & H1 & H2).
  assert (operands (String "(" (a +:+ String op (b +:+ ")")))
          = Some (op, Str.strip g1, Str.strip g2)) as ->.
  { unfold operands. destruct Hop as [-> | ->].
    - by rewrite Hm.
    - by rewrite (binary_plus_on_minus a _ Hpa), Hm. }
  rewrite (operand_value_strip (Str.strip g1) a), (operand_value_strip (Str.strip g2) b);
    [done|by rewrite strip_idempotent..].
Qed.

Lemma evaluate_parenthesized_instance :
  let symbols : gmap string Z := {[ "A" := 16 ]} in
  ("-"%char = "+"%char \/ "-"%char = "-"%char)
  /\ Re.sub_spaces (Str.strip "  ( A   -  0x5 ) ") = String "(" (" A " +:+ String "-" (" 0x5 " +:+ ")"))
  /\ fst (evaluate "  ( A   -  0x5 ) " symbols) = Some 11.
Proof.
  intros symbols. split; [by right|]. split; [reflexivity|].
  rewrite (evaluate_parenthesized "  ( A   -  0x5 ) " symbols "-" " A " " 0x5 ");
    [vm_compute; reflexivity|by right|discriminate|discriminate|reflexivity|reflexivity
    |reflexivity|vm_compute; reflexivity].
Defined.

Lemma operator_count_app x y :
  operator_count (x +:+ y) = (operator_count x + operator_count y)%nat.
Proof.
  induction x as [|c x IH]; [done|]. rewrite append_cons. cbn [operator_count].
  rewrite IH. lia.
Qed.

Lemma operator_count_none s :
  Str.all_chars Char.not_plus_minus s = true -> operator_count s = 0%nat.
Proof.
  induction s as [|c s IH]; [done|]. cbn [Str.all_chars operator_count].
  intros [-> Hs]%andb_prop. by rewrite (IH Hs).
Qed.

Lemma all_chars_lstrip p s :
  Str.all_chars p s = true -> Str.all_chars p (Str.lstrip s) = true.
Proof.
  induction s as [|c s IH]; [done|]. cbn [Str.lstrip].
  destruct (Char.isspace c); [|done]. cbn [Str.all_chars]. intros [_ Hs]%andb_prop. auto.
Qed.

Lemma all_chars_rstrip p s :
  Str.all_chars p s = true -> Str.all_chars p (Str.rstrip s) = true.
Proof.
  induction s as [|c s IH]; [done|]. cbn [Str.all_chars Str.rstrip].
  intros [Hc Hs]%andb_prop. specialize (IH Hs).
  destruct (Str.rstrip s) as [|c' r].
  - destruct (Char.isspace c); [done|]. cbn [Str.all_chars]. by rewrite Hc.
  - cbn [Str.all_chars] in *. by rewrite Hc, IH.
Qed.

Lemma all_chars_strip p s :
  Str.all_chars p s = true -> Str.all_chars p (Str.strip s) = true.
Proof. intros H. unfold Str.strip. by apply all_chars_rstrip, all_chars_lstrip. Qed.

Lemma binary_operator_count op s g1 g2 :
  op = "+"%char \/ op = "-"%char ->
  Re.binary op s = Some (g1, g2) ->
  operator_count s = 1%nat
  /\ operator_count (Str.strip g1) = 0%nat
  /\ operator_count (Str.strip g2) = 0%nat.
Proof.
  intros Hop Hm.
  destruct (binary_inv _ _ _ _ Hm)
    as (w1 & w2 & w3 & w4 & tail & -> & Hw1 & Hw2 & Hw3 & Hw4 & _ & Hg1 & _ & Hg2 & Htail).
  split; [|split; by apply operator_count_none, all_chars_strip].
  cbn [operator_count]. rewrite !operator_count_app. cbn [operator_count].
  rewrite !operator_count_app. cbn [operator_count].
  rewrite !(operator_count_none w1), !(operator_count_none w2),
    !(operator_count_none w3), !(operator_count_none w4),
    !(operator_count_none g1), !(operator_count_none g2)
    by eauto using all_chars_impl, isspace_not_plus_minus.
  assert (operator_count tail = 0%nat) as -> by (by destruct Htail as [-> | ->]).
  by destruct Hop as [-> | ->].
Qed.

(** X13.  Outside literals and keys of the dictionary, [evaluate] returns a
    value only for a text with exactly one character [+] or [-]: the text
    matches one of the two parenthesized patterns, its operands contain no
    operator, both are evaluated by [evaluate_operand], and the value is
    their sum or their difference.  Chained or nested operators never
    evaluate. *)
Theorem evaluate_single_operator expr (symbols : gmap string Z) v :
  fst (evaluate expr symbols) = Some v ->
  Re.number (Re.sub_spaces (Str.strip expr)) = false ->
  symbols !! Re.sub_spaces (Str.strip expr) = None ->
  operator_count (Re.sub_spaces (Str.strip expr)) = 1%nat
  /\ exists op lhs rhs x y,
       operands (Re.sub_spaces (Str.strip expr)) = Some (op, lhs, rhs)
       /\ operator_count lhs = 0%nat /\ operator_count rhs = 0%nat
       /\ fst (evaluate_operand lhs symbols) = Some x
       /\ fst (evaluate_operand rhs symbols) = Some y
       /\ v = (if Ascii.eqb op "+" then x + y else x - y).
Proof.
  rewrite evaluate_run. cbn [fst]. unfold expr_value. intros Hv Hnum Hkey.
  rewrite Hnum, Hkey in Hv.
  destruct (operands _) as [[[op lhs] rhs]|] eqn:Hops; [|done].
  destruct (operand_value lhs symbols) as [x|] eqn:Hx; [|done].
  destruct (operand_value rhs symbols) as [y|] eqn:Hy; [|done].
  injection Hv as <-.
  assert (operator_count (Re.sub_spaces (Str.strip expr)) = 1%nat
          /\ operator_count lhs = 0%nat /\ operator_count rhs = 0%nat) as (H1 & H2 & H3).
  { unfold operands in Hops.
    destruct (Re.binary "+" _) as [[g1 g2]|] eqn:Hplus.
    - injection Hops as <- <- <-. by apply (binary_operator_count "+"); [left|].
    - destruct (Re.binary "-" _) as [[g1 g2]|] eqn:Hminus; [|done].
      injection Hops as <- <- <-. by apply (binary_operator_count "-"); [right|]. }
  split; [done|]. exists op, lhs, rhs, x, y.
  rewrite !evaluate_operand_run. cbn [fst]. auto 10.
Qed.

Lemma evaluate_single_operator_instance :
  let symbols : gmap string Z := {[ "A" := 16; "B" := 2 ]} in
  fst (evaluate "(A + B)" symbols) = Some 18
  /\ operator_count "(A + B)" = 1%nat.
Proof.
  intros symbols.
  assert (fst (evaluate "(A + B)" symbols) = Some 18) as H by (vm_compute; reflexivity).
  split; [exact H|].
  exact (proj1 (evaluate_single_operator "(A + B)" symbols 18 H eq_refl
                  ltac:(vm_compute; reflexivity))).
Defined.

(** ** The names that an evaluation needs *)

Lemma length_lstrip s : (String.length (Str.lstrip s) <= String.length s)%nat.
Proof.
  induction s as [|c s IH]; [done|]. cbn [Str.lstrip].
  destruct (Char.isspace c); cbn [String.length]; lia.
Qed.

Lemma length_rstrip s : (String.length (Str.rstrip s) <= String.length s)%nat.
Proof.
  induction s as [|c s IH]; [done|]. cbn [Str.rstrip].
  destruct (Str.rstrip s) as [|c' r].
  - destruct (Char.isspace c); cbn [String.length]; lia.
  - cbn [String.length] in *. lia.
Qed.

Lemma length_strip s : (String.length (Str.strip s) <= String.length s)%nat.
Proof.
  unfold Str.strip. pose proof (length_rstrip (Str.lstrip s)).
  pose proof (length_lstrip s). lia.
Qed.

Lemma binary_lengths op s g1 g2 :
  Re.binary op s = Some (g1, g2) ->
  (String.length g1 <= String.length s)%nat
  /\ (String.length g2 <= String.length s)%nat.
Proof.
  intros (w1 & w2 & w3 & w4 & tail & -> & _)%binary_inv.
  repeat (rewrite length_append || cbn [String.length]). lia.
Qed.

Lemma operands_lengths expr op lhs rhs :
  operands expr = Some (op, lhs, rhs) ->
  (String.length (Str.strip lhs) <= String.length expr)%nat
  /\ (String.length (Str.strip rhs) <= String.length expr)%nat.
Proof.
  unfold operands.
  assert (forall o g1 g2, Re.binary o expr = Some (g1, g2) ->
            (String.length (Str.strip (Str.strip g1)) <= String.length expr)%nat
            /\ (String.length (Str.strip (Str.strip g2)) <= String.length expr)%nat) as Hlen.
  { intros o g1 g2 [H1 H2]%binary_lengths.
    pose proof (length_strip g1). pose proof (length_strip (Str.strip g1)).
    pose proof (length_strip g2). pose proof (length_strip (Str.strip g2)). lia. }
  destruct (Re.binary "+" expr) as [[g1 g2]|] eqn:Hplus.
  { intros [= _ <- <-]. by apply (Hlen "+"%char). }
  destruct (Re.binary "-" expr) as [[g1 g2]|] eqn:Hminus; [|done].
  intros [= _ <- <-]. by apply (Hlen "-"%char).
Qed.

Lemma operand_value_complete operand (symbols : gmap string Z) :
  Z.of_nat (String.length (Str.strip operand)) <= Int.max_str_digits ->
  (forall m, m ∈ operand_names operand -> is_Some (symbols !! m)) ->
  is_Some (operand_value operand symbols).
Proof.
  unfold operand_value, operand_names. intros Hlen.
  destruct (Re.number _) eqn:Hn; [intros _; by apply parse_c_value_number|].
  intros H. apply H, list_elem_of_singleton. done.
Qed.

(** When the normalized expression is not longer than the number of decimal
    digits that [int] converts, the names of [depends_on] are all that an
    evaluation needs. *)
Lemma depends_on_complete expr (symbols : gmap string Z) :
  Z.of_nat (String.length (Re.sub_spaces (Str.strip expr))) <= Int.max_str_digits ->
  (forall m, m ∈ depends_on expr symbols -> is_Some (symbols !! m)) ->
  is_Some (expr_value expr symbols).
Proof.
  unfold expr_value, depends_on. intros Hlen.
  destruct (Re.number _) eqn:Hn; [intros _; by apply parse_c_value_number|].
  destruct (symbols !! Re.sub_spaces (Str.strip expr)) as [w|] eqn:E; [eauto|].
  destruct (operands _) as [[[op lhs] rhs]|] eqn:Hops.
  - apply operands_lengths in Hops as [Hl Hr]. intros H.
    destruct (operand_value_complete lhs symbols) as [a ->]; [lia| |].
    { intros m Hm. apply H, elem_of_app. auto. }
    destruct (operand_value_complete rhs symbols) as [b ->]; [lia| |].
    { intros m Hm. apply H, elem_of_app. auto. }
    simpl. eauto.
  - intros H. rewrite <- E. apply H, list_elem_of_singleton. done.
Qed.

(** X7.  [evaluate] returns a value only if every name of [depends_on] is a
    key of the dictionary: no name for a literal, the expression itself when
    it is a key or has no operands, and otherwise the operands that are not
    literals.  Conversely, when the normalized expression has at most 4300
    characters, so that no decimal literal in it exceeds what [int]
    converts, these keys are enough for [evaluate] to return a value. *)
Theorem evaluate_needs_exactly expr (symbols : gmap string Z) :
  (is_Some (fst (evaluate expr symbols)) ->
   forall m, m ∈ depends_on expr symbols -> is_Some (symbols !! m))
  /\ (Z.of_nat (String.length (Re.sub_spaces (Str.strip expr))) <= Int.max_str_digits ->
      (forall m, m ∈ depends_on expr symbols -> is_Some (symbols !! m)) ->
      is_Some (fst (evaluate expr symbols))).
Proof.
  rewrite evaluate_run. cbn [fst]. split.
  - intros [v Hv] m. by apply (expr_value_names expr symbols v).
  - apply depends_on_complete.
Qed.

Lemma evaluate_needs_exactly_instance :
  depends_on "(B - 0x1)" {[ "B" := 4 ]} = ["B"]
  /\ Z.of_nat (String.length (Re.sub_spaces (Str.strip "(B - 0x1)"))) <= Int.max_str_digits
  /\ is_Some (fst (evaluate "(B - 0x1)" {[ "B" := 4 ]})).
Proof.
  split; [vm_compute; reflexivity|].
  assert (Z.of_nat (String.length (Re.sub_spaces (Str.strip "(B - 0x1)")))
          <= Int.max_str_digits) as Hlen by (vm_compute; discriminate).
  split; [exact Hlen|].
  apply (proj2 (evaluate_needs_exactly "(B - 0x1)" {[ "B" := 4 ]}) Hlen).
  intros m Hm. vm_compute in Hm. apply list_elem_of_singleton in Hm as ->.
  exists 4. vm_compute. reflexivity.
Defined.

(** ** Order of the records in a run *)

(** X14.  The records that remain unresolved are reported in the order of
    the input, and within each pass the pairs are yielded in the order of the
    input: the reported records, and the records resolved in one pass, are
    each obtained from the input by leaving records out. *)
Theorem run_keeps_input_order (defines : list define) (r : run) :
  resolve_dependencies defines = Some r ->
  reported r `sublist_of` defines
  /\ forall p, p ∈ passes r ->
       exists recs : list define,
         recs `sublist_of` defines /\ map fst recs = map fst p.
Proof.
  intros Hrun. destruct (resolve_loop_sublists _ _ _ _ _ Hrun) as [H1 H2].
  split; [done|]. by apply Forall_forall.
Qed.

Lemma run_keeps_input_order_instance :
  let defines := [("X", "(Y + 1)"); ("B", "(A + 1)"); ("A", "1"); ("Z", "Q")] in
  let r := {| passes := [[("A", 1)]; [("B", 2)]; []];
              final_symbols := {[ "A" := 1; "B" := 2 ]};
              reported := [("X", "(Y + 1)"); ("Z", "Q")] |} in
  resolve_dependencies defines = Some r
  /\ reported r `sublist_of` defines.
Proof.
  intros defines r.
  assert (resolve_dependencies defines = Some r) as Hrun by (vm_compute; reflexivity).
  split; [exact Hrun|]. exact (proj1 (run_keeps_input_order defines r Hrun)).
Defined.

Lemma in_order_pass s u out :
  resolves_in_order s u out ->
  exists res, pass_result s u = (res, []) /\ map pair_of res = out.
Proof.
  induction 1 as [s|s d v rest out Hv _ (res & Hres & Hout)].
  - by exists [].
  - exists ((d, v) :: res). cbn [pass_result]. rewrite evaluate_run in Hv.
    cbn [fst] in Hv. rewrite Hv, Hres. split; [done|]. cbn [map]. by rewrite Hout.
Qed.

Lemma in_order_names s u out :
  resolves_in_order s u out -> map fst out = map fst u.
Proof. induction 1; [done|]. cbn [map fst]. by f_equal. Qed.

(** X15.  When the records are given in an order in which each one can be
    evaluated from those before it, the run takes a single pass: every
    record is resolved in it, the pairs come out in the order of the input,
    and nothing is reported. *)
Theorem ordered_input_single_pass (defines : list define) (out : list (string * Z)) :
  defines <> [] ->
  resolves_in_order ∅ defines out ->
  resolve_dependencies defines
  = Some {| passes := [out]; final_symbols := symbols_after out; reported := [] |}
  /\ map fst out = map fst defines.
Proof.
  intros Hne Hord. split; [|by eapply in_order_names].
  destruct (in_order_pass _ _ _ Hord) as (res & Hres & Hout).
  unfold resolve_dependencies. rewrite resolve_loop_unfold.
  destruct defines as [|d defines]; [done|].
  rewrite bool_decide_eq_true_2 by done. cbn [length Nat.eqb negb andb].
  rewrite Hres, Hout. rewrite resolve_loop_exit by done. done.
Qed.

Lemma ordered_input_single_pass_instance :
  let defines := [("A", "0x10"); ("B", "(A + 0x5)"); ("C", "(B - A)")] in
  let out := [("A", 16); ("B", 21); ("C", 5)] in
  defines <> []
  /\ resolves_in_order ∅ defines out
  /\ resolve_dependencies defines
     = Some {| passes := [out]; final_symbols := symbols_after out; reported := [] |}.
Proof.
  intros defines out.
  assert (resolves_in_order ∅ defines out) as Hord.
  { apply (in_order_cons ∅ ("A", "0x10") 16); [vm_compute; reflexivity|].
    apply (in_order_cons _ ("B", "(A + 0x5)") 21); [vm_compute; reflexivity|].
    apply (in_order_cons _ ("C", "(B - A)") 5); [vm_compute; reflexivity|].
    apply in_order_nil. }
  split; [discriminate|]. split; [exact Hord|].
  exact (proj1 (ordered_input_single_pass defines out ltac:(discriminate) Hord)).
Defined.

(** ** Independence of the order of the input *)

Lemma operands_not_paren k : Str.startswith k "(" = false -> operands k = None.
Proof.
  intros Hk. unfold operands, Re.binary.
  destruct k as [|c k]; [done|]. cbn [Str.startswith] in Hk. cbn [Re.lit].
  destruct (Ascii.eqb "(" c); [done|]. done.
Qed.

Lemma operand_value_stable operand (s1 s2 : gmap string Z) v :
  (forall k w, s1 !! k = Some w -> s2 !! k = Some w) ->
  operand_value operand s1 = Some v -> operand_value operand s2 = Some v.
Proof. unfold operand_value. intros Hsub. destruct (Re.number _); auto. Qed.

Lemma expr_value_stable expr (s1 s2 : gmap string Z) v :
  (forall k w, s1 !! k = Some w -> s2 !! k = Some w) ->
  (forall k, is_Some (s2 !! k) -> Str.startswith k "(" = false) ->
  expr_value expr s1 = Some v -> expr_value expr s2 = Some v.
Proof.
  unfold expr_value. intros Hsub Hkeys. destruct (Re.number _); [done|].
  destruct (s1 !! Re.sub_spaces (Str.strip expr)) as [w1|] eqn:E1.
  { intros [= <-]. by rewrite (Hsub _ _ E1). }
  destruct (operands _) as [[[op lhs] rhs]|] eqn:Hops; [|done].
  destruct (s2 !! Re.sub_spaces (Str.strip expr)) as [w2|] eqn:E2.
  { rewrite operands_not_paren in Hops; [done|]. apply Hkeys. eauto. }
  destruct (operand_value lhs s1) as [a|] eqn:Ha; [|done].
  destruct (operand_value rhs s1) as [b|] eqn:Hb; [|done].
  by rewrite (operand_value_stable _ _ _ _ Hsub Ha), (operand_value_stable _ _ _ _ Hsub Hb).
Qed.

Lemma after_values_kept (out : list (string * Z)) :
  NoDup (map fst out) ->
  forall (i j : nat) k v, (i <= j)%nat ->
    symbols_after (take i out) !! k = Some v ->
    symbols_after (take j out) !! k = Some v.
Proof.
  intros Hnames i j k v Hle Hk.
  replace j with (i + (j - i))%nat by lia. generalize (j - i)%nat as n.
  induction n as [|n IH]; [by rewrite Nat.add_0_r|].
  rewrite Nat.add_succ_r.
  destruct (after_step _ _ _ _ IH) as [?|[w Hw]]; [done|]. exfalso.
  destruct (after_key_yielded out i k) as (j0 & w0 & Hlt & Hj0); [eauto|].
  assert (j0 = (i + n)%nat); [|lia].
  apply (NoDup_lookup _ _ _ k Hnames).
  - change (map fst out) with (fst <$> out). by rewrite list_lookup_fmap, Hj0.
  - change (map fst out) with (fst <$> out). by rewrite list_lookup_fmap, Hw.
Qed.

Lemma after_all (out : list (string * Z)) :
  symbols_after (take (length out) out) = symbols_after out.
Proof. by rewrite firstn_all. Qed.

Lemma settled_run defines r :
  NoDup (map fst defines) ->
  Forall (fun d => Str.startswith (fst d) "(" = false) defines ->
  resolve_dependencies defines = Some r ->
  exists res : list (define * Z),
    output r = map pair_of res
    /\ defines ≡ₚ map fst res ++ reported r
    /\ Forall (fails (final_symbols r)) (reported r)
    /\ NoDup (map fst (output r))
    /\ (forall k, is_Some (final_symbols r !! k) -> Str.startswith k "(" = false)
    /\ (forall (i : nat) k v,
          symbols_after (take i (output r)) !! k = Some v -> final_symbols r !! k = Some v)
    /\ (forall i d v, res !! i = Some (d, v) ->
          expr_value (snd d) (symbols_after (take i (output r))) = Some v
          /\ final_symbols r !! fst d = Some v
          /\ expr_value (snd d) (final_symbols r) = Some v).
Proof.
  intros Hnd Hplain Hrun.
  destruct (resolve_dependencies_spec _ _ Hrun) as (res & Hout & Hfin & Hperm & Hvals & Hrep).
  pose proof (output_names_nodup _ _ _ Hout Hperm Hnd) as Hnames.
  assert (forall k, is_Some (final_symbols r !! k) -> Str.startswith k "(" = false) as Hkeys.
  { intros k Hk. rewrite Hfin in Hk. unfold symbols_after in Hk.
    apply assign_all_keys in Hk as [Hk|Hk]; [by apply is_Some_None in Hk|].
    rewrite Hout, map_map in Hk. apply list_elem_of_fmap in Hk as ([d v] & -> & Hd).
    rewrite Forall_forall in Hplain. apply (Hplain d). rewrite Hperm.
    apply elem_of_app. left. apply list_elem_of_fmap. by exists (d, v). }
  assert (forall (i : nat) k v,
            symbols_after (take i (output r)) !! k = Some v -> final_symbols r !! k = Some v)
    as Hkept.
  { intros i k v Hk. rewrite Hfin, <- after_all.
    destruct (decide (i <= length (output r))%nat) as [Hle|Hgt].
    - by apply (after_values_kept _ Hnames i).
    - rewrite take_ge in Hk by lia. by rewrite after_all. }
  exists res. do 6 (split; [done|]).
  intros i d v Hi.
  assert (expr_value (snd d) (symbols_after (take i (output r))) = Some v) as Hv.
  { rewrite Hout. change (map pair_of res) with (pair_of <$> res).
    rewrite <- fmap_take. by apply Hvals. }
  split; [done|]. split.
  - apply (Hkept (S i)).
    assert (output r !! i = Some (fst d, v)) as Hpair.
    { rewrite Hout. change (map pair_of res) with (pair_of <$> res).
      by rewrite list_lookup_fmap, Hi. }
    rewrite (take_S_r _ _ _ Hpair). unfold symbols_after. rewrite assign_all_app.
    cbn [assign_all fold_left fst snd]. apply lookup_insert_eq.
  - apply (expr_value_stable _ _ _ _ (Hkept i) Hkeys Hv).
Qed.

Lemma runs_agree defines defines' r r' :
  NoDup (map fst defines) ->
  Forall (fun d => Str.startswith (fst d) "(" = false) defines ->
  defines ≡ₚ defines' ->
  resolve_dependencies defines = Some r ->
  resolve_dependencies defines' = Some r' ->
  forall k v, final_symbols r !! k = Some v -> final_symbols r' !! k = Some v.
Proof.
  intros Hnd Hplain Hperm Hrun Hrun'.
  assert (NoDup (map fst defines')) as Hnd' by (by rewrite <- Hperm).
  assert (Forall (fun d => Str.startswith (fst d) "(" = false) defines') as Hplain'
    by (by rewrite <- Hperm).
  destruct (settled_run _ _ Hnd Hplain Hrun)
    as (res & Hout & Hp & Hrep & Hnames & Hkeys & Hkept & Hres).
  destruct (settled_run _ _ Hnd' Hplain' Hrun')
    as (res' & Hout' & Hp' & Hrep' & Hnames' & Hkeys' & Hkept' & Hres').
  destruct (resolve_dependencies_spec _ _ Hrun) as (_ & _ & Hfin & _).
  assert (forall (i : nat) k v,
            symbols_after (take i (output r)) !! k = Some v ->
            final_symbols r' !! k = Some v) as Hincl.
  { induction i as [|i IH]; intros k v.
    { change (symbols_after (take 0 (output r))) with (∅ : gmap string Z).
      by rewrite lookup_empty. }
    destruct (res !! i) as [[d w]|] eqn:Hi.
    - assert (output r !! i = Some (fst d, w)) as Hpair.
      { rewrite Hout. change (map pair_of res) with (pair_of <$> res).
        by rewrite list_lookup_fmap, Hi. }
      rewrite (take_S_r _ _ _ Hpair). unfold symbols_after. rewrite assign_all_app.
      cbn [assign_all fold_left fst snd]. fold (symbols_after (take i (output r))).
      destruct (decide (fst d = k)) as [<-|Hne]; [|rewrite lookup_insert_ne by done; apply IH].
      rewrite lookup_insert_eq. intros [= <-].
      destruct (Hres _ _ _ Hi) as (Hv & _ & _).
      pose proof (expr_value_stable _ _ _ _ (IH) Hkeys' Hv) as Hv'.
      assert (d ∈ map fst res') as Hd.
      { assert (d ∈ defines') as Hin.
        { rewrite <- Hperm, Hp. apply elem_of_app. left.
          apply list_elem_of_fmap. exists (d, w). split; [done|].
          by eapply list_elem_of_lookup_2. }
        rewrite Hp' in Hin. apply elem_of_app in Hin as [?|Hin]; [done|].
        rewrite Forall_forall in Hrep'. specialize (Hrep' _ Hin).
        unfold fails in Hrep'. congruence. }
      apply list_elem_of_fmap in Hd as ([d' w'] & -> & Hd).
      apply list_elem_of_lookup in Hd as [j Hj].
      destruct (Hres' _ _ _ Hj) as (_ & Hfinal & Hw'). cbn [fst snd] in *.
      congruence.
    - apply lookup_ge_None in Hi.
      assert (length (output r) = length res) as Hlen by (by rewrite Hout, length_map).
      rewrite take_ge by lia. rewrite <- (take_ge (output r) i) by lia. apply IH. }
  intros k v Hk. apply (Hincl (length (output r))). by rewrite after_all, <- Hfin.
Qed.

Lemma runs_agree_up_to_order (defines defines' : list define) (r r' : run) :
  NoDup (map fst defines) ->
  Forall (fun d => Str.startswith (fst d) "(" = false) defines ->
  defines ≡ₚ defines' ->
  resolve_dependencies defines = Some r ->
  resolve_dependencies defines' = Some r' ->
  final_symbols r = final_symbols r'
  /\ output r ≡ₚ output r'
  /\ reported r ≡ₚ reported r'.
Proof.
  intros Hnd Hplain Hperm Hrun Hrun'.
  assert (NoDup (map fst defines')) as Hnd' by (by rewrite <- Hperm).
  assert (Forall (fun d => Str.startswith (fst d) "(" = false) defines') as Hplain'
    by (by rewrite <- Hperm).
  assert (final_symbols r = final_symbols r') as Hsame.
  { apply map_eq. intros k.
    destruct (final_symbols r !! k) as [v|] eqn:E.
    - symmetry. by apply (runs_agree defines defines' r r').
    - destruct (final_symbols r' !! k) as [v'|] eqn:E'; [|done].
      apply (runs_agree defines' defines r' r) in E'; [congruence|done..]. }
  assert (forall ds x, NoDup (map fst ds) ->
            Forall (fun d => Str.startswith (fst d) "(" = false) ds ->
            resolve_dependencies ds = Some x ->
            NoDup (output x)
            /\ (forall p, p ∈ output x <-> final_symbols x !! fst p = Some (snd p))
            /\ reported x ≡ₚ filter (fails (final_symbols x)) ds) as Hchar.
  { intros ds x Hn Hp Hr.
    destruct (settled_run _ _ Hn Hp Hr)
      as (res & Hout & Hpm & Hrep & Hnames & _ & _ & Hres).
    destruct (resolve_dependencies_spec _ _ Hr) as (_ & _ & Hfin & _).
    split; [by apply (NoDup_fmap_1 fst)|]. split.
    - intros [n v]. cbn [fst snd]. split.
      + rewrite Hout. intros ([d w] & [= -> ->] & Hd)%list_elem_of_fmap.
        apply list_elem_of_lookup in Hd as [i Hi]. by destruct (Hres _ _ _ Hi) as (_ & ? & _).
      + intros Hk. assert (n ∈ map fst (output x)) as Hn'.
        { rewrite Hfin in Hk. unfold symbols_after in Hk.
          destruct (proj1 (assign_all_keys ∅ (output x) n)) as [Hx|Hx]; [eauto| |done].
          rewrite lookup_empty in Hx. by apply is_Some_None in Hx. }
        destruct (assign_all_last ∅ _ _ Hn') as (pre & w & post & Heq & _ & Hw).
        fold (symbols_after (output x)) in Hw. rewrite <- Hfin, Hk in Hw.
        injection Hw as ->. rewrite Heq. apply elem_of_app. right. by left.
    - rewrite Hpm, filter_app.
      rewrite (filter_all _ _ Hrep), filter_none; [done|].
      apply Forall_forall. intros d ([d' w] & -> & Hd)%list_elem_of_fmap.
      apply list_elem_of_lookup in Hd as [i Hi]. destruct (Hres _ _ _ Hi) as (_ & _ & Hv).
      unfold fails. cbn [fst]. congruence. }
  destruct (Hchar _ _ Hnd Hplain Hrun) as (Ho & Hmem & Hrp).
  destruct (Hchar _ _ Hnd' Hplain' Hrun') as (Ho' & Hmem' & Hrp').
  split; [done|]. split.
  - apply NoDup_Permutation; [done..|]. intros p. by rewrite Hmem, Hmem', Hsame.
  - by rewrite Hrp, Hrp', Hsame, Hperm.
Qed.

(** X16.  The result of a run does not depend on the order of the input:
    when the names of the records are pairwise distinct and none starts with
    a parenthesis, two runs on the same records given in different orders end
    with the same dictionary, yield the same pairs and report the same
    records, up to the order of the pairs and of the reports. *)
Theorem runs_independent_of_order (defines defines' : list define) (r r' : run) :
  NoDup (map fst defines) ->
  Forall (fun d => Str.startswith (fst d) "(" = false) defines ->
  defines ≡ₚ defines' ->
  resolve_dependencies defines = Some r ->
  resolve_dependencies defines' = Some r' ->
  final_symbols r = final_symbols r'
  /\ output r ≡ₚ output r'
  /\ reported r ≡ₚ reported r'.
Proof. apply runs_agree_up_to_order. Qed.

Lemma runs_independent_of_order_instance :
  let defines := [("B", "(A + 1)"); ("X", "(Y + 1)"); ("A", "1")] in
  let defines' := [("A", "1"); ("B", "(A + 1)"); ("X", "(Y + 1)")] in
  let r := {| passes := [[("A", 1)]; [("B", 2)]; []];
              final_symbols := {[ "A" := 1; "B" := 2 ]};
              reported := [("X", "(Y + 1)")] |} in
  let r' := {| passes := [[("A", 1); ("B", 2)]; []];
               final_symbols := {[ "A" := 1; "B" := 2 ]};
               reported := [("X", "(Y + 1)")] |} in
  NoDup (map fst defines)
  /\ Forall (fun d => Str.startswith (fst d) "(" = false) defines
  /\ defines ≡ₚ defines'
  /\ resolve_dependencies defines = Some r
  /\ resolve_dependencies defines' = Some r'
  /\ final_symbols r = final_symbols r'
  /\ output r ≡ₚ output r'
  /\ reported r ≡ₚ reported r'.
Proof.
  intros defines defines' r r'.
  assert (NoDup (map fst defines)) as H1 by (apply (bool_decide_unpack _); vm_compute; exact I).
  assert (Forall (fun d => Str.startswith (fst d) "(" = false) defines) as H2
    by (repeat constructor).
  assert (defines ≡ₚ defines') as H3 by (apply (bool_decide_unpack _); vm_compute; exact I).
  assert (resolve_dependencies defines = Some r) as H4 by (vm_compute; reflexivity).
  assert (resolve_dependencies defines' = Some r') as H5 by (vm_compute; reflexivity).
  do 5 (split; [assumption|]).
  exact (runs_independent_of_order defines defines' r r' H1 H2 H3 H4 H5).
Defined.

Lemma wanted_not_paren name : wanted name = true -> Str.startswith name "(" = false.
Proof.
  intros [->|[H|H]]%wanted_iff; [reflexivity| |];
    (destruct name as [|c name]; [done|]; cbn [Str.startswith] in *;
     destruct (Ascii.eqb "(" c) eqn:E; [|done];
     apply Ascii.eqb_eq in E as <-; discriminate H).
Qed.

(** X17.  The order of the lines of the header does not matter: when the
    records extracted have pairwise distinct names, the runs on two
    arrangements of the same lines end with the same dictionary, yield the
    same pairs and report the same records, up to order. *)
Theorem header_line_order_irrelevant (lines lines' : list string) (r r' : run) :
  lines ≡ₚ lines' ->
  NoDup (map fst (extract_defines_from_header lines)) ->
  resolve_dependencies (extract_defines_from_header lines) = Some r ->
  resolve_dependencies (extract_defines_from_header lines') = Some r' ->
  final_symbols r = final_symbols r'
  /\ output r ≡ₚ output r'
  /\ reported r ≡ₚ reported r'.
Proof.
  intros Hperm Hnd. apply runs_agree_up_to_order; [done| |].
  - apply Forall_forall. intros [n e] Hin. cbn [fst]. apply wanted_not_paren.
    unfold extract_defines_from_header in Hin. rewrite extract_defines_fold in Hin.
    cbn [app] in Hin. apply list_elem_of_omap in Hin as (line & _ & Hext).
    by apply extract_line_Some in Hext as (kw & name & rest & _ & _ & Hw & [= -> _]).
  - unfold extract_defines_from_header. rewrite !extract_defines_fold. cbn [app].
    by rewrite Hperm.
Qed.

Lemma header_line_order_irrelevant_instance :
  let lines := ["#define EVT_B (EVT_A + 1)"; "#define EVT_A 0x10"] in
  let lines' := ["#define EVT_A 0x10"; "#define EVT_B (EVT_A + 1)"] in
  let r := {| passes := [[("EVT_A", 16)]; [("EVT_B", 17)]];
              final_symbols := {[ "EVT_A" := 16; "EVT_B" := 17 ]};
              reported := [] |} in
  let r' := {| passes := [[("EVT_A", 16); ("EVT_B", 17)]];
               final_symbols := {[ "EVT_A" := 16; "EVT_B" := 17 ]};
               reported := [] |} in
  lines ≡ₚ lines'
  /\ NoDup (map fst (extract_defines_from_header lines))
  /\ resolve_dependencies (extract_defines_from_header lines) = Some r
  /\ resolve_dependencies (extract_defines_from_header lines') = Some r'
  /\ final_symbols r = final_symbols r'
  /\ output r ≡ₚ output r'.
Proof.
  intros lines lines' r r'.
  assert (lines ≡ₚ lines') as H1 by (apply (bool_decide_unpack _); vm_compute; exact I).
  assert (NoDup (map fst (extract_defines_from_header lines))) as H2
    by (apply (bool_decide_unpack _); vm_compute; exact I).
  assert (resolve_dependencies (extract_defines_from_header lines) = Some r) as H3
    by (vm_compute; reflexivity).
  assert (resolve_dependencies (extract_defines_from_header lines') = Some r') as H4
    by (vm_compute; reflexivity).
  do 4 (split; [assumption|]).
  destruct (header_line_order_irrelevant lines lines' r r' H1 H2 H3 H4) as (Ha & Hb & _).
  split; [exact Ha|exact Hb].
Defined.

(** X18.  With pairwise distinct names, the generator never yields a pair
    for a record whose evaluation needs the record's own name: the pair at
    each place of the output comes from a record of that name, evaluated with
    the dictionary of that moment, and the name is not among those that the
    evaluation depends on. *)
Theorem yielded_pair_not_self_dependent (defines : list define) (r : run)
    (i : nat) (n : string) (v : Z) :
  NoDup (map fst defines) ->
  resolve_dependencies defines = Some r ->
  output r !! i = Some (n, v) ->
  exists e,
    (n, e) ∈ defines
    /\ fst (evaluate e (symbols_after (take i (output r)))) = Some v
    /\ (n ∉ depends_on e (symbols_after (take i (output r)))).
Proof.
  intros Hnd Hrun Hi.
  destruct (resolve_dependencies_spec _ _ Hrun) as (res & Hout & Hfin & Hperm & Hvals & _).
  pose proof (output_names_nodup _ _ _ Hout Hperm Hnd) as Hnames.
  assert (exists e, res !! i = Some ((n, e), v)) as [e He].
  { rewrite Hout in Hi. change (map pair_of res) with (pair_of <$> res) in Hi.
    rewrite list_lookup_fmap in Hi. destruct (res !! i) as [[[n' e] v']|]; [|done].
    injection Hi as -> ->. eauto. }
  assert (expr_value e (symbols_after (take i (output r))) = Some v) as Hv.
  { rewrite Hout. change (map pair_of res) with (pair_of <$> res).
    rewrite <- fmap_take. by apply (Hvals i (n, e) v). }
  exists e. split; [|split].
  - rewrite Hperm. apply elem_of_app. left. apply list_elem_of_fmap.
    exists ((n, e), v). split; [done|]. by eapply list_elem_of_lookup_2.
  - by rewrite evaluate_run.
  - intros Hdep. pose proof (expr_value_names _ _ _ _ Hv Hdep) as Hkey.
    destruct (after_key_yielded _ _ _ Hkey) as (j & w & Hlt & Hj).
    assert (j = i); [|lia].
    apply (NoDup_lookup _ _ _ n Hnames);
      change (map fst (output r)) with (fst <$> output r);
      rewrite list_lookup_fmap; [by rewrite Hj|by rewrite Hi].
Qed.

Lemma yielded_pair_not_self_dependent_instance :
  let defines := [("A", "(A + 1)"); ("B", "1")] in
  let r := {| passes := [[("B", 1)]; []];
              final_symbols := {[ "B" := 1 ]};
              reported := [("A", "(A + 1)")] |} in
  NoDup (map fst defines)
  /\ resolve_dependencies defines = Some r
  /\ output r !! 0%nat = Some ("B", 1)
  /\ exists e, ("B", e) ∈ defines
       /\ fst (evaluate e (symbols_after (take 0 (output r)))) = Some 1
       /\ ("B" ∉ depends_on e (symbols_after (take 0 (output r)))).
Proof.
  intros defines r.
  assert (NoDup (map fst defines)) as H1 by (apply (bool_decide_unpack _); vm_compute; exact I).
  assert (resolve_dependencies defines = Some r) as H2 by (vm_compute; reflexivity).
  split; [exact H1|]. split; [exact H2|]. split; [reflexivity|].
  exact (yielded_pair_not_self_dependent defines r 0 "B" 1 H1 H2 eq_refl).
Defined.

(** X19.  A [#define] whose value is only a comment is not skipped: the
    extractor keeps it with an empty expression, which [evaluate] accepts
    only if the empty text is a key of the dictionary. *)
Theorem comment_only_value_kept (line kw gap1 name gap2 comment : string) :
  Str.strip line = kw +:+ gap1 +:+ name +:+ gap2 +:+ "//" +:+ comment ->
  Str.startswith (Str.strip line) "#define" = true ->
  word kw -> blank gap1 -> word name -> blank gap2 ->
  wanted name = true ->
  Str.all_chars Char.not_newline comment = true ->
  extract_line line = Some (name, "")
  /\ forall symbols : gmap string Z, fst (evaluate "" symbols) = symbols !! "".
Proof.
  intros Heq Hstart Hkw Hg1 Hname Hg2 Hwanted Hcomment. split.
  - apply extract_line_Some. exists kw, name, ("//" +:+ comment).
    split; [done|]. split; [by exists gap1, gap2|]. split; [done|].
    rewrite sub_comment_before; [reflexivity|].
    change (Char.not_newline "/" && (Char.not_newline "/"
              && Str.all_chars Char.not_newline comment) = true).
    by rewrite Hcomment.
  - intros symbols. rewrite evaluate_run. cbn [fst]. unfold expr_value.
    change (Re.sub_spaces (Str.strip "")) with "".
    change (Re.number "") with false. change (operands "") with (@None (ascii * string * string)).
    by destruct (symbols !! "").
Qed.

Lemma comment_only_value_kept_instance :
  let line := "#define EVT_X // not yet assigned" in
  Str.strip line = "#define" +:+ " " +:+ "EVT_X" +:+ " " +:+ "//" +:+ " not yet assigned"
  /\ extract_line line = Some ("EVT_X", "").
Proof.
  intros line. split; [reflexivity|].
  refine (proj1 (comment_only_value_kept line "#define" " " "EVT_X" " " " not yet assigned"
                   eq_refl eq_refl _ _ _ _ eq_refl eq_refl));
    (split; [discriminate|reflexivity]).
Defined.

(** X20.  On a text without whitespace that does not start with a
    parenthesis, [evaluate] and [evaluate_operand] return the same result;
    when the text is not a literal, that result is the entry of the
    dictionary under the text, and a [ValueError] when there is none. *)
Theorem evaluate_plain_text (text : string) (symbols : gmap string Z) :
  Str.all_chars nonspace text = true ->
  Str.startswith text "(" = false ->
  fst (evaluate text symbols) = fst (evaluate_operand text symbols)
  /\ (Re.number text = false -> fst (evaluate text symbols) = symbols !! text).
Proof.
  intros Hns Hparen. rewrite evaluate_run, evaluate_operand_run. cbn [fst].
  unfold expr_value, operand_value.
  rewrite (strip_nonspace _ Hns), (sub_spaces_nonspace _ Hns).
  rewrite (operands_not_paren _ Hparen).
  destruct (Re.number text); [by split|].
  by destruct (symbols !! text).
Qed.

Lemma evaluate_plain_text_instance :
  let symbols : gmap string Z := {[ "EVT_A" := 7 ]} in
  Str.all_chars nonspace "EVT_A" = true
  /\ Str.startswith "EVT_A" "(" = false
  /\ fst (evaluate "EVT_A" symbols) = fst (evaluate_operand "EVT_A" symbols).
Proof.
  intros symbols. split; [reflexivity|]. split; [reflexivity|].
  exact (proj1 (evaluate_plain_text "EVT_A" symbols eq_refl eq_refl)).
Defined.

(** X21.  [resolve_dependencies] has a run on every list of [n] records,
    and the run is the same however large the bound on the number of
    evaluations of the loop condition is taken, so that the bound does not
    cut it short.  The run takes at most [n] passes, and at least one when
    there is a record; the pairs yielded and the records reported add up to
    [n]. *)
Theorem passes_at_most_records (defines : list define) :
  exists r : run,
    resolve_dependencies defines = Some r
    /\ (forall extra : nat,
          resolve_loop (S (length defines) + extra) ∅ defines 0 = Some r)
    /\ (length (passes r) <= length defines)%nat
    /\ (defines <> [] -> (1 <= length (passes r))%nat)
    /\ (length (output r) + length (reported r) = length defines)%nat.
Proof.
  destruct (resolve_dependencies_runs defines) as (r & Hrun & Hfuel).
  exists r. split; [exact Hrun|]. split; [exact Hfuel|].
  assert (loop_passes (length defines) (passes r) (length (reported r))) as Hshape.
  { pose proof (resolve_loop_passes _ _ _ _ _ Hrun) as H.
    destruct defines as [|d defines]; [|exact H].
    destruct H as [-> ->]. constructor. }
  split; [by eapply loop_passes_length|]. split.
  - intros Hne. inversion Hshape as [Hz| |]; subst; cbn [length]; try lia.
    destruct defines; [done|discriminate].
  - destruct (resolve_dependencies_spec _ _ Hrun) as (res & Hout & _ & Hperm & _).
    rewrite (Permutation_length Hperm), length_app, Hout, !length_map. done.
Qed.

Lemma passes_at_most_records_instance :
  let defines := [("C", "(B + 1)"); ("B", "(A + 1)"); ("A", "1")] in
  exists r : run,
    resolve_loop 100 ∅ defines 0 = Some r
    /\ passes r = [[("A", 1)]; [("B", 2)]; [("C", 3)]]
    /\ (length (passes r) <= length defines)%nat
    /\ (1 <= length (passes r))%nat.
Proof.
  intros defines.
  destruct (passes_at_most_records defines) as (r & Hrun & Hfuel & Hle & Hge & _).
  exists r. split; [exact (Hfuel 96%nat)|].
  assert (resolve_dependencies defines
          = Some {| passes := [[("A", 1)]; [("B", 2)]; [("C", 3)]];
                    final_symbols := {[ "A" := 1; "B" := 2; "C" := 3 ]};
                    reported := [] |}) as Hc by (vm_compute; reflexivity).
  rewrite Hc in Hrun. injection Hrun as <-.
  split; [reflexivity|]. split; [exact Hle|]. apply Hge. discriminate.
Defined.
